(** * cgra-adders: the cocotb verification harness of the N-bit adders

    A shallow embedding of the Python harness under [src/sim]:
    - the reference model written inline in [tests/test_add_basic.py],
    - the stimulus generator [sequences/adder_sequence.py],
    - the assertion helpers [assertions/adder_asserts.py],
    - the coverage collector [coverage/adder_coverage.py],
    - the DUT configurations [dut/*/config.py] and the test itself,
      [test_adder_basic], run against an abstract circuit,
    - the file name of a plot [plot_metrics.py],
    followed by the properties of the specification that concern them and
    by further properties read off the code.

    Python integers are unbounded, so they are [Z].  A Python exception is a
    value of [exn]; a call that may raise returns a [result]; a method that
    also reads or mutates state is a function from the state to a result and
    the state it leaves behind (an exception does not roll anything back). *)

From Stdlib Require Import ZArith Lia List String Ascii.
From stdpp Require Import base tactics option list gmap sets strings pretty.

#[local] Set Warnings "-register-all,-clear-no-such-hyp".
Local Open Scope Z_scope.

(** ** Python exceptions and the two monads *)

Module Py.

Inductive exn : Type :=
  | FileNotFoundError
  | PermissionError
  | JSONDecodeError
  | TypeError
  | ValueError
  | AssertionError (msg : string).

Inductive result (A : Type) : Type :=
  | Ok (a : A)
  | Raise (e : exn).
Arguments Ok {A} a.
Arguments Raise {A} e.

Definition result_bind {A B} (f : A -> result B) (m : result A) : result B :=
  match m with
  | Ok a => f a
  | Raise e => Raise e
  end.

#[global] Instance result_ret : MRet result := fun _ a => Ok a.
#[global] Instance result_mbind : MBind result := fun _ _ f m => result_bind f m.

(** A computation over a state [S]: the outcome and the state afterwards. *)
Definition M (S A : Type) : Type := S -> result A * S.

Definition M_bind {S A B} (f : A -> M S B) (m : M S A) : M S B :=
  fun s =>
    match m s with
    | (Ok a, s') => f a s'
    | (Raise e, s') => (Raise e, s')
    end.

#[global] Instance M_ret {S} : MRet (M S) := fun _ a s => (Ok a, s).
#[global] Instance M_mbind {S} : MBind (M S) := fun _ _ f m => M_bind f m.

Definition raise {S A} (e : exn) : M S A := fun s => (Raise e, s).
Definition lift {S A} (r : result A) : M S A := fun s => (r, s).
Definition gets {S A} (f : S -> A) : M S A := fun s => (Ok (f s), s).
Definition modify {S} (f : S -> S) : M S unit := fun s => (Ok tt, f s).

(** [x << n] and [x >> n] on Python integers: a negative shift count raises
    [ValueError]. *)
Definition lshift (x n : Z) : result Z :=
  if n <? 0 then Raise ValueError else Ok (Z.shiftl x n).

Definition rshift (x n : Z) : result Z :=
  if n <? 0 then Raise ValueError else Ok (Z.shiftr x n).

End Py.
Import Py.

(** ** The reference model (tests/test_add_basic.py, lines 74 and 86-88) *)

Module TestAddBasic.

(** [mask = (1 << N) - 1], computed once before the loop. *)
Definition mask (N : Z) : result Z :=
  m ← lshift 1 N; mret (m - 1).

(** [total = a + b + c_in; expected_sum = total & mask;
    expected_c_out = total >> N]. *)
Definition reference_model (N a b c_in : Z) : result (Z * Z) :=
  mask ← mask N;
  let total := a + b + c_in in
  let expected_sum := Z.land total mask in
  expected_c_out ← rshift total N;
  mret (expected_sum, expected_c_out).

End TestAddBasic.

(** ** The stimulus generator (sequences/adder_sequence.py) *)

Module Sequence.

(** Python's [random] module, seen from outside: a hidden generator state and
    the draw behind [random.randint(a, b)] for a non-empty range.  The
    generator itself is the standard library's, not this repository's; what is
    used of it is its documented contract, [draw_in_range] below. *)
Class RandomGen : Type := {
  rng : Type;
  draw : Z -> Z -> rng -> Z * rng
}.

(** "Return a random integer N such that a <= N <= b." *)
Definition draw_in_range (R : RandomGen) : Prop :=
  forall (a b : Z) (s : rng), a <= b -> a <= fst (draw a b s) <= b.

(** [random.randint(a, b)]: an empty range raises [ValueError]. *)
Definition randint `{RandomGen} (a b : Z) : M rng Z :=
  fun s =>
    if b <? a then (Raise ValueError, s)
    else let '(v, s') := draw a b s in (Ok v, s').

Record AdderSequence : Type := { width : Z }.

(** [__init__]: stores the width, whatever it is. *)
Definition init (width : Z) : AdderSequence := {| width := width |}.

(** The body of [for _ in range(num_vectors)], run [n] more times. *)
Fixpoint generate_loop `{RandomGen} (n : nat) (max_val : Z)
    (vectors : list (Z * Z * Z)) : M rng (list (Z * Z * Z)) :=
  match n with
  | O => mret vectors
  | S n' =>
      a ← randint 0 max_val;
      b ← randint 0 max_val;
      c_in ← randint 0 1;
      generate_loop n' max_val (vectors ++ [(a, b, c_in)])
  end.

(** [generate_vectors(self, num_vectors=1)]; [None] is the omitted argument.
    [range(k)] is empty for [k <= 0]. *)
Definition generate_vectors `{RandomGen} (self : AdderSequence)
    (num_vectors : option Z) : M rng (list (Z * Z * Z)) :=
  let num_vectors := default 1 num_vectors in
  m ← lift (lshift 1 (width self));
  let max_val := m - 1 in
  generate_loop (Z.to_nat num_vectors) max_val [].

(** The bounds of a vector for width [N]. *)
Definition vector_in_range (N : Z) (v : Z * Z * Z) : Prop :=
  let '(a, b, c_in) := v in
  0 <= a <= 2 ^ N - 1 /\ 0 <= b <= 2 ^ N - 1 /\ (c_in = 0 \/ c_in = 1).

(** A concrete generator to run the definitions on: a linear congruential
    generator reduced into the requested range. *)
Definition lcg_next (s : Z) : Z := (1103515245 * s + 12345) mod 2 ^ 31.

#[local] Instance lcg : RandomGen := {|
  rng := Z;
  draw a b s := (a + s mod (b - a + 1), lcg_next s)
|}.

End Sequence.

(** ** The assertion helpers (assertions/adder_asserts.py) and the checking
    step of the test (tests/test_add_basic.py, lines 90-92) *)

Module Asserts.

(** The two output signals of the DUT handle, as integers ([int(...)] of a
    resolved value). *)
Record dut_handle : Type := { sum_value : Z; c_out_value : Z }.

Inductive signal : Type := SigSum | SigCOut.

(** The state of a check is the log of signal reads made so far: every
    comparison starts by reading the signal it compares. *)
Definition read_signal (dut : dut_handle) (sg : signal) : M (list signal) Z :=
  fun log =>
    (Ok (match sg with SigSum => sum_value dut | SigCOut => c_out_value dut end),
     log ++ [sg]).

Definition py_assert {S} (cond : bool) (msg : string) : M S unit :=
  if cond then mret tt else raise (AssertionError msg).

Definition assert_adder_sum (dut : dut_handle) (expected_sum : Z)
    : M (list signal) unit :=
  sum_val ← read_signal dut SigSum;
  py_assert (sum_val =? expected_sum)
    ("Sum mismatch: got " +:+ pretty sum_val +:+ ", expected "
       +:+ pretty expected_sum).

Definition assert_adder_c_out (dut : dut_handle) (expected_c_out : Z)
    : M (list signal) unit :=
  c_out_val ← read_signal dut SigCOut;
  py_assert (c_out_val =? expected_c_out)
    ("C_out mismatch: got " +:+ pretty c_out_val +:+ ", expected "
       +:+ pretty expected_c_out).

(** The checking step of the test body. *)
Definition check (dut : dut_handle) (expected_sum expected_c_out : Z)
    : M (list signal) unit :=
  _ ← assert_adder_sum dut expected_sum;
  assert_adder_c_out dut expected_c_out.

End Asserts.

(** ** The coverage collector (coverage/adder_coverage.py) *)

Module Coverage.

(** The values [json.load] returns: [None], booleans, integers, strings, lists
    and dictionaries (keys are strings, members kept as the document lists
    them).  JSON numbers with a fraction or an exponent (Python floats) are
    left out of the development. *)
Inductive pyval : Type :=
  | PNone
  | PBool (b : bool)
  | PInt (n : Z)
  | PStr (s : string)
  | PList (items : list pyval)
  | PDict (members : list (string * pyval)).

(** The hashable values a tuple of the covered set holds.  Python's [==] and
    [hash] identify [True] with 1 and [False] with 0, so a boolean is kept as
    its integer. *)
Inductive atom : Type :=
  | ANone
  | AInt (n : Z)
  | AStr (s : string).

#[global] Instance atom_eq_dec : EqDecision atom.
Proof. solve_decision. Defined.

#[global] Instance atom_countable : Countable atom.
Proof.
  refine (inj_countable'
    (fun a => match a with
              | ANone => inl (inl tt) | AInt n => inl (inr n) | AStr s => inr s
              end)
    (fun x => match x with
              | inl (inl _) => ANone | inl (inr n) => AInt n | inr s => AStr s
              end) _).
  intros []; reflexivity.
Defined.

(** [key = (a, b, cin)] *)
Definition tuple3 (a b cin : Z) : list atom := [AInt a; AInt b; AInt cin].

Definition atom_value (x : atom) : pyval :=
  match x with
  | ANone => PNone
  | AInt n => PInt n
  | AStr s => PStr s
  end.

(** The object: its one attribute. *)
Record AdderCoverage : Type := { covered : gset (list atom) }.

(** A file either holds text that [json.load] decodes to a value, or text it
    rejects (an empty file, for one). *)
Inductive file_content : Type :=
  | NotJson
  | Json (v : pyval).

(** What the methods act on: the objects by reference, the files by path, the
    paths [open] refuses, and what was printed. *)
Record world : Type := {
  objs : nat -> AdderCoverage;
  disk : gmap string file_content;
  denied : gset string;
  stdout : list string
}.

Definition set_obj (self : nat) (o : AdderCoverage) (w : world) : world :=
  {| objs := fun l => if decide (l = self) then o else objs w l;
     disk := disk w; denied := denied w; stdout := stdout w |}.

Definition set_file (filename : string) (c : file_content) (w : world) : world :=
  {| objs := objs w; disk := <[filename := c]> (disk w);
     denied := denied w; stdout := stdout w |}.

Definition covered_of (w : world) (self : nat) : gset (list atom) :=
  covered (objs w self).

Definition get_covered (self : nat) : M world (gset (list atom)) :=
  gets (fun w => covered_of w self).

Definition set_covered (self : nat) (s : gset (list atom)) : M world unit :=
  modify (set_obj self {| covered := s |}).

(** [open(filename, "r")] *)
Definition open_r (filename : string) : M world file_content :=
  fun w =>
    if decide (filename ∈ denied w) then (Raise PermissionError, w)
    else match disk w !! filename with
         | None => (Raise FileNotFoundError, w)
         | Some c => (Ok c, w)
         end.

(** [open(filename, "w")]: creates the file or empties it. *)
Definition open_w (filename : string) : M world unit :=
  fun w =>
    if decide (filename ∈ denied w) then (Raise PermissionError, w)
    else (Ok tt, set_file filename NotJson w).

(** [json.dump(data, f)] for a list of tuples: a JSON array of arrays. *)
Definition json_dump (data : list (list atom)) (filename : string) : M world unit :=
  modify (set_file filename (Json (PList (map (fun t => PList (map atom_value t)) data)))).

(** [json.load(f)] *)
Definition json_load (f : file_content) : result pyval :=
  match f with
  | NotJson => Raise JSONDecodeError
  | Json v => Ok v
  end.

Definition print (line : string) : M world unit :=
  modify (fun w => {| objs := objs w; disk := disk w; denied := denied w;
                      stdout := stdout w ++ [line] |}).

(** The keys of a dictionary, each at the place of its first occurrence. *)
Definition dict_keys (members : list (string * pyval)) : list string :=
  foldl (fun acc k => if decide (k ∈ acc) then acc else acc ++ [k]) [] (map fst members).

(** Iteration: over a list its items, over a string its characters, over a
    dictionary its keys; anything else is not iterable. *)
Definition py_iter (v : pyval) : result (list pyval) :=
  match v with
  | PList items => Ok items
  | PStr s => Ok (map (fun c => PStr (String c EmptyString)) (list_ascii_of_string s))
  | PDict members => Ok (map PStr (dict_keys members))
  | PNone | PBool _ | PInt _ => Raise TypeError
  end.

Definition not_iterable (v : pyval) : Prop :=
  match v with
  | PNone | PBool _ | PInt _ => True
  | PStr _ | PList _ | PDict _ => False
  end.

(** What iterating over a value yields (nothing when it is not iterable). *)
Definition elements_of (v : pyval) : list pyval :=
  match py_iter v with
  | Ok xs => xs
  | Raise _ => []
  end.

(** [tuple(x)] *)
Definition py_tuple (x : pyval) : result (list pyval) := py_iter x.

(** Hashing an item of a tuple: lists and dictionaries are unhashable. *)
Definition hash_item (v : pyval) : result atom :=
  match v with
  | PNone => Ok ANone
  | PBool b => Ok (AInt (Z.b2z b))
  | PInt n => Ok (AInt n)
  | PStr s => Ok (AStr s)
  | PList _ | PDict _ => Raise TypeError
  end.

Definition unhashable (v : pyval) : Prop :=
  match v with
  | PList _ | PDict _ => True
  | PNone | PBool _ | PInt _ | PStr _ => False
  end.

Fixpoint hash_tuple (t : list pyval) : result (list atom) :=
  match t with
  | [] => Ok []
  | v :: t' => a ← hash_item v; k ← hash_tuple t'; mret (a :: k)
  end.

(** [set(tuple(x) for x in xs)]: each element is made a tuple and added (which
    hashes it) before the next one is looked at. *)
Fixpoint set_of_tuples (xs : list pyval) (acc : gset (list atom))
    : result (gset (list atom)) :=
  match xs with
  | [] => Ok acc
  | x :: xs' =>
      t ← py_tuple x;
      k ← hash_tuple t;
      set_of_tuples xs' (acc ∪ {[k]})
  end.

(** An element of the loaded document that makes [set(tuple(x) ...)] raise:
    one that is not iterable, or one with an unhashable item. *)
Definition rejected_element (x : pyval) : Prop :=
  not_iterable x \/ Exists unhashable (elements_of x).

(** The order in which Python lists a set is left open. *)
Class SetOrder : Type := { list_of_set : gset (list atom) -> list (list atom) }.

Definition lists_the_set (O : SetOrder) : Prop :=
  forall s : gset (list atom), list_of_set s ≡ₚ elements s.

#[local] Instance elements_order : SetOrder := {| list_of_set := elements |}.

(** [__init__] *)
Definition init (self : nat) : M world unit :=
  set_covered self ∅.

(** [sample] *)
Definition sample (self : nat) (a b cin : Z) : M world unit :=
  let key := tuple3 a b cin in
  c ← get_covered self;
  set_covered self (c ∪ {[key]}).

(** [save] *)
Definition save `{SetOrder} (self : nat) (filename : string) : M world unit :=
  c ← get_covered self;
  let data := list_of_set c in
  _ ← open_w filename;
  json_dump data filename.

(** [load]: the attribute is assigned once the whole right-hand side has been
    evaluated. *)
Definition load (self : nat) (filename : string) : M world unit :=
  f ← open_r filename;
  doc ← lift (json_load f);
  xs ← lift (py_iter doc);
  s ← lift (set_of_tuples xs ∅);
  set_covered self s.

(** [merge]: [self.covered.update(other_coverage.covered)] *)
Definition merge (self other_coverage : nat) : M world unit :=
  c ← get_covered self;
  o ← get_covered other_coverage;
  set_covered self (c ∪ o).

(** [report] *)
Definition report (self : nat) : M world unit :=
  c ← get_covered self;
  print ("[Coverage] Total unique input combinations: " +:+ pretty (size c)).

(** A world to run the definitions in: empty trackers and no file. *)
Definition empty_world : world :=
  {| objs := fun _ => {| covered := ∅ |}; disk := ∅; denied := ∅; stdout := [] |}.

End Coverage.

(** ** The DUT configurations (dut/rca/config.py, dut/cla/config.py,
    dut/ksa/config.py) *)

Module Config.
Import Sequence.

(** The ["ports"] dictionary: its five keys are fixed by the literal. *)
Record port_names : Type := {
  port_a : string;
  port_b : string;
  port_c_in : string;
  port_sum : string;
  port_c_out : string
}.

Record config : Type := {
  name : string;
  top_module : string;
  rtl_files : list string;
  parameter_N : Z;
  ports : port_names
}.





End Config.

(** ** The test (tests/test_add_basic.py, [test_adder_basic]) *)

Module TestBench.
Import Sequence Asserts.

(** The simulated circuit, seen through its cocotb handle: the value of its
    parameter [N], a write to the port of a given name, what one nanosecond
    of simulated time does, and the two output signals the assertion helpers
    read ([dut.sum] and [dut.c_out]).  The circuit and the simulator are not
    part of this repository. *)
Class Dut : Type := {
  dut_state : Type;
  N_value : dut_state -> Z;
  write : string -> Z -> dut_state -> dut_state;
  timer_1ns : dut_state -> dut_state;
  handle : dut_state -> dut_handle
}.

Section Test.
Context {R : RandomGen} {D : Dut}.

(** What a run of the test acts on. *)
Record state : Type := {
  st_rng : rng;
  st_dut : dut_state;
  st_log : list signal;
  st_world : Coverage.world
}.

Definition with_rng {A} (m : M rng A) : M state A :=
  fun s =>
    let '(r, g) := m (st_rng s) in
    (r, {| st_rng := g; st_dut := st_dut s; st_log := st_log s;
           st_world := st_world s |}).

Definition with_world {A} (m : M Coverage.world A) : M state A :=
  fun s =>
    let '(r, w) := m (st_world s) in
    (r, {| st_rng := st_rng s; st_dut := st_dut s; st_log := st_log s;
           st_world := w |}).

(** A helper called on the handle as the circuit stands at that moment. *)
Definition with_dut {A} (f : dut_handle -> M (list signal) A) : M state A :=
  fun s =>
    let '(r, l) := f (handle (st_dut s)) (st_log s) in
    (r, {| st_rng := st_rng s; st_dut := st_dut s; st_log := l;
           st_world := st_world s |}).

Definition on_dut (f : dut_state -> dut_state) : M state unit :=
  modify (fun s => {| st_rng := st_rng s; st_dut := f (st_dut s);
                      st_log := st_log s; st_world := st_world s |}).

(** The three assignments [getattr(dut, ports[...]).value = ...]. *)
Definition drive (ports : Config.port_names) (a b c_in : Z) : M state unit :=
  _ ← on_dut (write (Config.port_a ports) a);
  _ ← on_dut (write (Config.port_b ports) b);
  on_dut (write (Config.port_c_in ports) c_in).

(** The body of the [for] loop, over the vectors still to come. *)
Fixpoint run_vectors (ports : Config.port_names) (N mask : Z) (coverage : nat)
    (vectors : list (Z * Z * Z)) : M state unit :=
  match vectors with
  | [] => mret tt
  | (a, b, c_in) :: rest =>
      _ ← drive ports a b c_in;
      _ ← on_dut timer_1ns;
      let total := a + b + c_in in
      let expected_sum := Z.land total mask in
      expected_c_out ← lift (rshift total N);
      _ ← with_dut (fun dut => assert_adder_sum dut expected_sum);
      _ ← with_dut (fun dut => assert_adder_c_out dut expected_c_out);
      _ ← with_world (Coverage.sample coverage a b c_in);
      run_vectors ports N mask coverage rest
  end.

(** [test_adder_basic(dut)], with the imported [CONFIG] and the reference of
    the tracker object it creates. *)
Definition test_adder_basic (CONFIG : Config.config) (coverage : nat)
    : M state unit :=
  N ← gets (fun s => N_value (st_dut s));
  let ports := Config.ports CONFIG in
  let sequence := Sequence.init N in
  _ ← with_world (Coverage.init coverage);
  mask ← lift (TestAddBasic.mask N);
  vectors ← with_rng (generate_vectors sequence None);
  _ ← run_vectors ports N mask coverage vectors;
  with_world (Coverage.report coverage).

(** The circuit behaves as an [N]-bit adder on the ports of [ports]: one
    nanosecond after in-range operands were written, its outputs are the sum
    modulo [2^N] and the carry, and its parameter is what it was. *)
Definition adds_correctly (ports : Config.port_names) : Prop :=
  forall (d : dut_state) (a b c_in : Z),
    vector_in_range (N_value d) (a, b, c_in) ->
    let d' := timer_1ns (write (Config.port_c_in ports) c_in
                (write (Config.port_b ports) b
                   (write (Config.port_a ports) a d))) in
    N_value d' = N_value d
    /\ handle d' = {| sum_value := (a + b + c_in) mod 2 ^ N_value d;
                      c_out_value := (a + b + c_in) / 2 ^ N_value d |}.

End Test.

Arguments state : clear implicits.

(** Two circuits to run the test on: a combinational adder of a given
    width, and one whose sum output is stuck at zero. *)
Record adder_regs : Type := { reg_N : Z; reg_a : Z; reg_b : Z; reg_c_in : Z }.

Definition write_reg (port : string) (v : Z) (d : adder_regs) : adder_regs :=
  if String.eqb port "a" then
    {| reg_N := reg_N d; reg_a := v; reg_b := reg_b d; reg_c_in := reg_c_in d |}
  else if String.eqb port "b" then
    {| reg_N := reg_N d; reg_a := reg_a d; reg_b := v; reg_c_in := reg_c_in d |}
  else if String.eqb port "c_in" then
    {| reg_N := reg_N d; reg_a := reg_a d; reg_b := reg_b d; reg_c_in := v |}
  else d.

#[local] Instance ideal_adder : Dut := {|
  dut_state := adder_regs;
  N_value := reg_N;
  write := write_reg;
  timer_1ns d := d;
  handle d :=
    {| sum_value := (reg_a d + reg_b d + reg_c_in d) mod 2 ^ reg_N d;
       c_out_value := (reg_a d + reg_b d + reg_c_in d) / 2 ^ reg_N d |}
|}.

#[local] Instance stuck_adder : Dut := {|
  dut_state := adder_regs;
  N_value := reg_N;
  write := write_reg;
  timer_1ns d := d;
  handle d :=
    {| sum_value := 0;
       c_out_value := (reg_a d + reg_b d + reg_c_in d) / 2 ^ reg_N d |}
|}.

Definition start `{RandomGen} `{Dut} (seed : rng) (d : dut_state) : state _ _ :=
  {| st_rng := seed; st_dut := d; st_log := []; st_world := Coverage.empty_world |}.

End TestBench.

(** ** The input space of a width *)

Module Space.

(** A covered set that holds nothing but in-range vectors of width [N]. *)
Definition within_space (N : Z) (s : gset (list Coverage.atom)) : Prop :=
  forall t, t ∈ s ->
    exists a b c_in,
      t = Coverage.tuple3 a b c_in /\ Sequence.vector_in_range N (a, b, c_in).

(** Every in-range vector of width [N], listed once. *)
Definition all_vectors (N : Z) : list (list Coverage.atom) :=
  a ← seqZ 0 (2 ^ N); b ← seqZ 0 (2 ^ N); c_in ← [0; 1];
  [Coverage.tuple3 a b c_in].

End Space.

(** ** The name of a plot file (plot_metrics.py, [plot_metric], line 42, and
    the metrics [main] plots, lines 56-59) *)

Module PlotMetrics.

(** [s.replace(old, new)] for a pattern [old] of one character: every
    occurrence is replaced. *)
Fixpoint replace_char (old : ascii) (new : string) (s : string) : string :=
  match s with
  | EmptyString => EmptyString
  | String c s' =>
      if Ascii.eqb c old then new +:+ replace_char old new s'
      else String c (replace_char old new s')
  end.

(** [f'{metric.replace(" ", "_").replace("(", "").replace(")", "")}.png'] *)
Definition plot_filename (metric : string) : string :=
  replace_char ")" "" (replace_char "(" "" (replace_char " " "_" metric))
  +:+ ".png".

Definition metrics_to_plot : list string :=
  ["area (um^2)"; "delay (ns)"; "internal power (uW)";
   "switching power (uW)"; "leakage power (uW)"; "total power (uW)"].

End PlotMetrics.

(** * Properties *)

Lemma land_mask_mod (t N : Z) :
  0 <= N -> Z.land t (Z.shiftl 1 N - 1) = t mod 2 ^ N.
Proof.
  intros HN. rewrite Z.shiftl_1_l.
  replace (2 ^ N - 1) with (Z.ones N) by (rewrite Z.ones_equiv; lia).
  now apply Z.land_ones.
Qed.

Lemma reference_model_eq (N a b c_in : Z) :
  0 <= N ->
  TestAddBasic.reference_model N a b c_in
  = Ok ((a + b + c_in) mod 2 ^ N, (a + b + c_in) / 2 ^ N).
Proof.
  intros HN.
  unfold TestAddBasic.reference_model, TestAddBasic.mask, lshift, rshift.
  destruct (N <? 0) eqn:E; [lia|]. cbn.
  rewrite land_mask_mod by lia. now rewrite Z.shiftr_div_pow2 by lia.
Qed.

(** C1. For every width [N > 0], operands [a], [b] in [[0, 2^N - 1]] and carry
    [c_in] in [{0, 1}], the reference model returns
    [expected_sum = (a + b + c_in) mod 2^N] and
    [expected_c_out = (a + b + c_in) div 2^N], and the carry is 0 or 1; and for
    [N = 4] the vector [(7, 12, 0)] gives sum 3 and carry 1. *)
Theorem reference_model_correct :
  (forall N a b c_in : Z,
      0 < N -> 0 <= a <= 2 ^ N - 1 -> 0 <= b <= 2 ^ N - 1 ->
      c_in = 0 \/ c_in = 1 ->
      exists s c,
        TestAddBasic.reference_model N a b c_in = Ok (s, c)
        /\ s = (a + b + c_in) mod 2 ^ N
        /\ c = (a + b + c_in) / 2 ^ N
        /\ (c = 0 \/ c = 1))
  /\ TestAddBasic.reference_model 4 7 12 0 = Ok (3, 1).
Proof.
  split; [|reflexivity].
  intros N a b c_in HN Ha Hb Hc.
  exists ((a + b + c_in) mod 2 ^ N), ((a + b + c_in) / 2 ^ N).
  split; [apply reference_model_eq; lia|].
  split; [reflexivity|]. split; [reflexivity|].
  assert (0 < 2 ^ N) by (apply Z.pow_pos_nonneg; lia).
  assert (0 <= (a + b + c_in) / 2 ^ N < 2); [|lia].
  split.
  - apply Z.div_pos; lia.
  - apply Z.div_lt_upper_bound; lia.
Qed.

Lemma reference_model_correct_witness :
  exists s c,
    TestAddBasic.reference_model 4 7 12 0 = Ok (s, c)
    /\ s = (7 + 12 + 0) mod 2 ^ 4
    /\ c = (7 + 12 + 0) / 2 ^ 4
    /\ (c = 0 \/ c = 1).
Proof.
  apply (proj1 reference_model_correct 4 7 12 0); [lia | lia | lia | left; reflexivity].
Defined.

(** ** The stimulus generator *)

Section Generator.
Import Sequence.
Context (R : RandomGen) (HR : draw_in_range R).

Lemma randint_in_range (a b : Z) (s : rng) :
  a <= b -> exists v s', randint a b s = (Ok v, s') /\ a <= v <= b.
Proof.
  intros Hab. unfold randint.
  destruct (b <? a) eqn:E; [lia|].
  pose proof (HR a b s Hab) as Hv.
  destruct (draw a b s) as [v s']. eauto.
Qed.

Lemma generate_loop_spec (n : nat) (max_val : Z) :
  0 <= max_val ->
  forall (acc : list (Z * Z * Z)) (s : rng),
  exists vs s',
    generate_loop n max_val acc s = (Ok (acc ++ vs), s')
    /\ length vs = n
    /\ Forall (fun '(a, b, c) =>
                 0 <= a <= max_val /\ 0 <= b <= max_val /\ (c = 0 \/ c = 1)) vs.
Proof.
  intros Hm. induction n as [|n IH]; intros acc s.
  - exists [], s. rewrite app_nil_r. auto.
  - destruct (randint_in_range 0 max_val s Hm) as (a & s1 & Ea & Ha).
    destruct (randint_in_range 0 max_val s1 Hm) as (b & s2 & Eb & Hb).
    destruct (randint_in_range 0 1 s2 ltac:(lia)) as (c & s3 & Ec & Hc).
    destruct (IH (acc ++ [(a, b, c)]) s3) as (vs & s' & E & Hlen & Hall).
    exists ((a, b, c) :: vs), s'. split; [|split].
    + cbn [generate_loop]. unfold mbind, M_mbind, M_bind.
      rewrite Ea, Eb, Ec, E. now rewrite <- app_assoc.
    + cbn. now rewrite Hlen.
    + constructor; [|exact Hall]. repeat split; lia.
Qed.

Lemma generate_vectors_spec (N : Z) (k : option Z) (s : rng) :
  0 <= N ->
  exists vs s',
    generate_vectors (init N) k s = (Ok vs, s')
    /\ length vs = Z.to_nat (default 1 k)
    /\ Forall (vector_in_range N) vs.
Proof.
  intros HN.
  assert (0 < 2 ^ N) as Hpow by (apply Z.pow_pos_nonneg; lia).
  destruct (generate_loop_spec (Z.to_nat (default 1 k)) (2 ^ N - 1)
              ltac:(lia) [] s) as (vs & s' & E & Hlen & Hall).
  exists vs, s'. split; [|split; [exact Hlen|]].
  - unfold generate_vectors, init, lift, lshift. cbn [width].
    destruct (N <? 0) eqn:EN; [lia|].
    unfold mbind, M_mbind, M_bind. rewrite Z.shiftl_1_l. exact E.
  - eapply Forall_impl; [exact Hall|]. intros [[a b] c]. cbn. tauto.
Qed.

End Generator.

(** C2. For every width [N > 0] and count [k >= 0], [generate_vectors(k)]
    returns exactly [k] vectors, each with [a] and [b] in [[0, 2^N - 1]] and
    [c_in] in [{0, 1}]; with the count left out it returns exactly one such
    vector.  (For every generator that meets the contract of
    [random.randint], from every state of it.) *)
Theorem generate_vectors_count_and_bounds (R : Sequence.RandomGen) :
  Sequence.draw_in_range R ->
  forall (N : Z) (s : Sequence.rng),
    0 < N ->
    (forall k : Z, 0 <= k ->
       exists vs s',
         Sequence.generate_vectors (Sequence.init N) (Some k) s = (Ok vs, s')
         /\ Z.of_nat (length vs) = k
         /\ Forall (Sequence.vector_in_range N) vs)
    /\ (exists vs s',
         Sequence.generate_vectors (Sequence.init N) None s = (Ok vs, s')
         /\ length vs = 1%nat
         /\ Forall (Sequence.vector_in_range N) vs).
Proof.
  intros HR N s HN. split.
  - intros k Hk.
    destruct (generate_vectors_spec R HR N (Some k) s ltac:(lia))
      as (vs & s' & E & Hlen & Hall).
    exists vs, s'. repeat split; [exact E| |exact Hall].
    rewrite Hlen. cbn. lia.
  - destruct (generate_vectors_spec R HR N None s ltac:(lia))
      as (vs & s' & E & Hlen & Hall).
    exists vs, s'. repeat split; [exact E| |exact Hall].
    rewrite Hlen. reflexivity.
Qed.

Lemma lcg_in_range : Sequence.draw_in_range Sequence.lcg.
Proof.
  intros a b s Hab. cbn.
  pose proof (Z.mod_pos_bound s (b - a + 1) ltac:(lia)). lia.
Qed.

Lemma generate_vectors_count_and_bounds_witness :
  exists vs s',
    @Sequence.generate_vectors Sequence.lcg (Sequence.init 4) (Some 3) 42
    = (Ok vs, s')
    /\ Z.of_nat (length vs) = 3
    /\ Forall (Sequence.vector_in_range 4) vs.
Proof.
  apply (proj1 (generate_vectors_count_and_bounds Sequence.lcg lcg_in_range
                  4 42 ltac:(lia)) 3).
  lia.
Defined.

(** C6, as the code has it.  There is no check of the width and no
    [StimulusError]: [__init__] stores any width.  For a negative width
    [generate_vectors] raises [ValueError] (the shift [1 << width]) before
    any number is drawn, whatever the count.  For width 0 it raises nothing
    and returns the requested vectors, each with [a = b = 0]. *)
Theorem generate_vectors_nonpositive_width (R : Sequence.RandomGen) :
  Sequence.draw_in_range R ->
  forall (width : Z) (k : option Z) (s : Sequence.rng),
    (width < 0 ->
       Sequence.generate_vectors (Sequence.init width) k s = (Raise ValueError, s))
    /\ (width = 0 ->
       exists vs s',
         Sequence.generate_vectors (Sequence.init width) k s = (Ok vs, s')
         /\ length vs = Z.to_nat (default 1 k)
         /\ Forall (fun '(a, b, c_in) => a = 0 /\ b = 0 /\ (c_in = 0 \/ c_in = 1)) vs).
Proof.
  intros HR width k s. split.
  - intros Hw. unfold Sequence.generate_vectors, Sequence.init, lift, lshift.
    cbn [Sequence.width]. destruct (width <? 0) eqn:E; [reflexivity|lia].
  - intros ->.
    destruct (generate_vectors_spec R HR 0 k s ltac:(lia))
      as (vs & s' & E & Hlen & Hall).
    exists vs, s'. repeat split; [exact E|exact Hlen|].
    eapply Forall_impl; [exact Hall|]. intros [[a b] c]. cbn. lia.
Qed.

Lemma generate_vectors_nonpositive_width_witness :
  @Sequence.generate_vectors Sequence.lcg (Sequence.init (-3)) (Some 5) 42
  = (Raise ValueError, 42).
Proof.
  apply (proj1 (generate_vectors_nonpositive_width Sequence.lcg lcg_in_range
                  (-3) (Some 5) 42)).
  lia.
Defined.

(** C6 as stated fails at width 0 with count 1: a vector is returned and no
    error is raised. *)
Lemma generate_vectors_width_zero_counterexample :
  exists c_in s',
    @Sequence.generate_vectors Sequence.lcg (Sequence.init 0) (Some 1) 42
    = (Ok [(0, 0, c_in)], s').
Proof. exists 0, (Sequence.lcg_next (Sequence.lcg_next (Sequence.lcg_next 42))). reflexivity. Qed.

(** ** The checking step *)

Lemma assert_adder_sum_run (dut : Asserts.dut_handle) (expected_sum : Z)
    (log : list Asserts.signal) :
  Asserts.assert_adder_sum dut expected_sum log
  = (if Asserts.sum_value dut =? expected_sum then Ok tt
     else Raise (AssertionError
            ("Sum mismatch: got " +:+ pretty (Asserts.sum_value dut)
               +:+ ", expected " +:+ pretty expected_sum)),
     log ++ [Asserts.SigSum]).
Proof.
  unfold Asserts.assert_adder_sum, Asserts.read_signal, Asserts.py_assert.
  unfold mbind, M_mbind, M_bind.
  destruct (Asserts.sum_value dut =? expected_sum); reflexivity.
Qed.

Lemma assert_adder_c_out_run (dut : Asserts.dut_handle) (expected_c_out : Z)
    (log : list Asserts.signal) :
  Asserts.assert_adder_c_out dut expected_c_out log
  = (if Asserts.c_out_value dut =? expected_c_out then Ok tt
     else Raise (AssertionError
            ("C_out mismatch: got " +:+ pretty (Asserts.c_out_value dut)
               +:+ ", expected " +:+ pretty expected_c_out)),
     log ++ [Asserts.SigCOut]).
Proof.
  unfold Asserts.assert_adder_c_out, Asserts.read_signal, Asserts.py_assert.
  unfold mbind, M_mbind, M_bind.
  destruct (Asserts.c_out_value dut =? expected_c_out); reflexivity.
Qed.

(** C7, as the code has it.  The checking step compares the sum first and the
    carry only when the sum agrees, so one vector yields at most one mismatch:
    a sum mismatch whenever the sums differ (the carry signal is then not even
    read), a carry mismatch only when the sums agree and the carries differ,
    and success when both agree. *)
Theorem check_stops_at_first_mismatch (dut : Asserts.dut_handle)
    (expected_sum expected_c_out : Z) (log : list Asserts.signal) :
  (Asserts.sum_value dut <> expected_sum ->
     Asserts.check dut expected_sum expected_c_out log
     = (Raise (AssertionError
          ("Sum mismatch: got " +:+ pretty (Asserts.sum_value dut)
             +:+ ", expected " +:+ pretty expected_sum)),
        log ++ [Asserts.SigSum]))
  /\ (Asserts.sum_value dut = expected_sum ->
      Asserts.c_out_value dut <> expected_c_out ->
     Asserts.check dut expected_sum expected_c_out log
     = (Raise (AssertionError
          ("C_out mismatch: got " +:+ pretty (Asserts.c_out_value dut)
             +:+ ", expected " +:+ pretty expected_c_out)),
        log ++ [Asserts.SigSum; Asserts.SigCOut]))
  /\ (Asserts.sum_value dut = expected_sum ->
      Asserts.c_out_value dut = expected_c_out ->
     Asserts.check dut expected_sum expected_c_out log
     = (Ok tt, log ++ [Asserts.SigSum; Asserts.SigCOut])).
Proof.
  unfold Asserts.check, mbind, M_mbind, M_bind.
  rewrite assert_adder_sum_run.
  split; [|split].
  - intros Hs. apply Z.eqb_neq in Hs. now rewrite Hs.
  - intros Hs Hc. apply Z.eqb_eq in Hs. apply Z.eqb_neq in Hc.
    rewrite Hs, assert_adder_c_out_run, Hc. now rewrite <- app_assoc.
  - intros Hs Hc. apply Z.eqb_eq in Hs. apply Z.eqb_eq in Hc.
    rewrite Hs, assert_adder_c_out_run, Hc. now rewrite <- app_assoc.
Qed.

Lemma check_stops_at_first_mismatch_witness :
  Asserts.check {| Asserts.sum_value := 3; Asserts.c_out_value := 0 |} 3 1 []
  = (Raise (AssertionError "C_out mismatch: got 0, expected 1"),
     [Asserts.SigSum; Asserts.SigCOut]).
Proof.
  apply (proj1 (proj2 (check_stops_at_first_mismatch
           {| Asserts.sum_value := 3; Asserts.c_out_value := 0 |} 3 1 []))).
  - reflexivity.
  - cbn. lia.
Defined.

(** C7 as stated fails when both outputs are wrong: with observed
    [(sum, c_out) = (2, 0)] against expected [(3, 1)] the carry comparison
    would fail by itself, yet the checking step reads the sum signal only and
    raises the sum mismatch alone. *)
Lemma check_reports_sum_only_counterexample :
  let dut := {| Asserts.sum_value := 2; Asserts.c_out_value := 0 |} in
  Asserts.assert_adder_c_out dut 1 []
  = (Raise (AssertionError "C_out mismatch: got 0, expected 1"), [Asserts.SigCOut])
  /\ Asserts.check dut 3 1 []
     = (Raise (AssertionError "Sum mismatch: got 2, expected 3"), [Asserts.SigSum]).
Proof. split; reflexivity. Qed.

(** ** The coverage collector *)

Section CoverageFacts.
Import Coverage.

Lemma covered_of_set_obj (w : world) (self l : nat) (o : AdderCoverage) :
  covered_of (set_obj self o w) l
  = if decide (l = self) then covered o else covered_of w l.
Proof. unfold covered_of, set_obj. cbn. now destruct (decide (l = self)). Qed.

Lemma covered_of_set_obj_same (w : world) (self : nat) (o : AdderCoverage) :
  covered_of (set_obj self o w) self = covered o.
Proof. rewrite covered_of_set_obj. now rewrite decide_True. Qed.

Lemma sample_run (self : nat) (a b cin : Z) (w : world) :
  sample self a b cin w
  = (Ok tt, set_obj self {| covered := covered_of w self ∪ {[tuple3 a b cin]} |} w).
Proof. reflexivity. Qed.

Lemma merge_run (self other : nat) (w : world) :
  merge self other w
  = (Ok tt, set_obj self {| covered := covered_of w self ∪ covered_of w other |} w).
Proof. reflexivity. Qed.

Lemma init_run (self : nat) (w : world) :
  init self w = (Ok tt, set_obj self {| covered := ∅ |} w).
Proof. reflexivity. Qed.

Lemma report_run (self : nat) (w : world) :
  stdout (snd (report self w))
  = stdout w ++ ["[Coverage] Total unique input combinations: "
                   +:+ pretty (size (covered_of w self))].
Proof. reflexivity. Qed.

Lemma size_add_le (s : gset (list atom)) (x : list atom) :
  (size s <= size (s ∪ {[x]}) <= size s + 1)%nat.
Proof.
  split.
  - apply subseteq_size. set_solver.
  - destruct (decide (x ∈ s)) as [Hin|Hnin].
    + replace (s ∪ {[x]}) with s by set_solver. lia.
    + rewrite size_union by set_solver. rewrite size_singleton. lia.
Qed.

End CoverageFacts.

(** C10. [sample] checks nothing: for all integers [a], [b], [c_in], in range
    or not, it returns normally, the tuple is then in the covered set, and the
    set has grown by at most one element. *)
Theorem sample_unchecked (w : Coverage.world) (self : nat) (a b c_in : Z) :
  let w' := snd (Coverage.sample self a b c_in w) in
  fst (Coverage.sample self a b c_in w) = Ok tt
  /\ Coverage.tuple3 a b c_in ∈ Coverage.covered_of w' self
  /\ (size (Coverage.covered_of w self) <= size (Coverage.covered_of w' self)
      <= size (Coverage.covered_of w self) + 1)%nat.
Proof.
  rewrite sample_run. cbn [fst snd]. rewrite covered_of_set_obj_same. cbn.
  split; [reflexivity|]. split; [set_solver|apply size_add_le].
Qed.

(** C9. Sampling a vector a second time leaves the covered set, hence its
    cardinality, as the first sampling left it; and on a fresh tracker, after
    sampling [(1,2,0)], [(1,2,0)], [(3,4,1)], [report()] prints the count 2. *)
Theorem sample_idempotent :
  (forall (w : Coverage.world) (self : nat) (a b c_in : Z),
      let w1 := snd (Coverage.sample self a b c_in w) in
      let w2 := snd (Coverage.sample self a b c_in w1) in
      Coverage.covered_of w2 self = Coverage.covered_of w1 self
      /\ size (Coverage.covered_of w2 self) = size (Coverage.covered_of w1 self))
  /\ (forall (w : Coverage.world) (self : nat),
      let run :=
        (_ ← Coverage.init self;
         _ ← Coverage.sample self 1 2 0;
         _ ← Coverage.sample self 1 2 0;
         _ ← Coverage.sample self 3 4 1;
         Coverage.report self) w in
      fst run = Ok tt
      /\ Coverage.stdout (snd run)
         = Coverage.stdout w ++ ["[Coverage] Total unique input combinations: 2"]).
Proof.
  split.
  - intros w self a b c_in. cbn zeta. rewrite !sample_run. cbn [snd].
    rewrite !covered_of_set_obj_same. cbn [Coverage.covered].
    assert (forall (s : gset (list Coverage.atom)) x, s ∪ {[x]} ∪ {[x]} = s ∪ {[x]})
      as E by set_solver.
    now rewrite E.
  - intros w self. cbn zeta. unfold mbind, M_mbind, M_bind.
    rewrite init_run, !sample_run. cbn [fst snd].
    split; [reflexivity|].
    rewrite report_run. rewrite !covered_of_set_obj_same. cbn [Coverage.covered].
    reflexivity.
Qed.

(** C4. [A.merge(B)] returns normally and makes A's covered set the union of
    the two, B's covered set is what it was (also when B is A itself), the
    result does not depend on which of the two is the receiver, and merging
    three trackers gives the same set however the merges are grouped. *)
Theorem merge_union_commutative_associative (w : Coverage.world) (a b c : nat) :
  let wab := snd (Coverage.merge a b w) in
  let wba := snd (Coverage.merge b a w) in
  fst (Coverage.merge a b w) = Ok tt
  /\ Coverage.covered_of wab a = Coverage.covered_of w a ∪ Coverage.covered_of w b
  /\ Coverage.covered_of wab b = Coverage.covered_of w b
  /\ Coverage.covered_of wba b = Coverage.covered_of wab a
  /\ Coverage.covered_of (snd (Coverage.merge a c wab)) a
     = Coverage.covered_of (snd (Coverage.merge a b (snd (Coverage.merge b c w)))) a.
Proof.
  cbn zeta. rewrite !merge_run. cbn [fst snd].
  repeat (rewrite !covered_of_set_obj; cbn [Coverage.covered]).
  split; [reflexivity|].
  repeat split; repeat case_decide; subst; try congruence;
    auto using union_idemp_L, union_comm_L; set_solver.
Qed.

(** *** Loading *)

Section Loading.
Import Coverage.

(** What [load] does, step by step: the world changes only in the last one. *)
Lemma load_run (self : nat) (filename : string) (w : world) :
  load self filename w
  = if decide (filename ∈ denied w) then (Raise PermissionError, w)
    else match disk w !! filename with
         | None => (Raise FileNotFoundError, w)
         | Some f =>
             match (doc ← json_load f; xs ← py_iter doc; set_of_tuples xs ∅) with
             | Ok s => (Ok tt, set_obj self {| covered := s |} w)
             | Raise e => (Raise e, w)
             end
         end.
Proof.
  unfold load, open_r, lift, mbind, M_mbind, M_bind.
  destruct (decide (filename ∈ denied w)); [reflexivity|].
  destruct (disk w !! filename) as [f|]; [|reflexivity].
  destruct (json_load f) as [doc|e]; [|reflexivity]. cbn.
  destruct (py_iter doc) as [xs|e]; [|reflexivity]. cbn.
  destruct (set_of_tuples xs ∅); reflexivity.
Qed.

Lemma py_iter_cases (v : pyval) :
  (py_iter v = Ok (elements_of v) /\ ~ not_iterable v)
  \/ (py_iter v = Raise TypeError /\ not_iterable v).
Proof. unfold elements_of. destruct v; cbn; auto. Qed.

Lemma hash_item_cases (v : pyval) :
  (exists a, hash_item v = Ok a /\ ~ unhashable v)
  \/ (hash_item v = Raise TypeError /\ unhashable v).
Proof. destruct v; cbn; eauto. Qed.

Lemma hash_tuple_cases (t : list pyval) :
  (exists k, hash_tuple t = Ok k /\ Forall (fun y => ~ unhashable y) t)
  \/ (hash_tuple t = Raise TypeError /\ Exists unhashable t).
Proof.
  induction t as [|v t IH]; cbn [hash_tuple].
  - left. eauto.
  - destruct (hash_item_cases v) as [(a & -> & Hv)|[-> Hv]]; cbn.
    + destruct IH as [(k & -> & Ht)|[-> Ht]]; cbn.
      * left. eauto.
      * right. split; [reflexivity|]. now apply Exists_cons_tl.
    + right. split; [reflexivity|]. now apply Exists_cons_hd.
Qed.

Lemma tuple_cases (x : pyval) :
  (exists k, (t ← py_tuple x; hash_tuple t) = Ok k /\ ~ rejected_element x)
  \/ ((t ← py_tuple x; hash_tuple t) = Raise TypeError /\ rejected_element x).
Proof.
  unfold py_tuple, rejected_element.
  destruct (py_iter_cases x) as [[-> Hx]|[-> Hx]]; cbn.
  - destruct (hash_tuple_cases (elements_of x)) as [(k & -> & Ht)|[-> Ht]].
    + left. exists k. split; [reflexivity|]. intros [?|Hex]; [tauto|].
      apply Exists_exists in Hex as (y & Hy & Hu).
      rewrite Forall_forall in Ht. exact (Ht y Hy Hu).
    + right. auto.
  - right. auto.
Qed.

Lemma set_of_tuples_cases (xs : list pyval) (acc : gset (list atom)) :
  (exists s, set_of_tuples xs acc = Ok s /\ Forall (fun x => ~ rejected_element x) xs)
  \/ (set_of_tuples xs acc = Raise TypeError /\ Exists rejected_element xs).
Proof.
  revert acc. induction xs as [|x xs IH]; intros acc; cbn [set_of_tuples].
  - left. eauto.
  - pose proof (tuple_cases x) as Hx. unfold mbind, result_mbind in *.
    destruct (py_tuple x) as [t|e]; cbn in *.
    + destruct Hx as [(k & -> & Hk)|[-> Hk]]; cbn.
      * destruct (IH (acc ∪ {[k]})) as [(s & -> & Hs)|[-> Hs]].
        -- left. eauto.
        -- right. split; [reflexivity|]. now apply Exists_cons_tl.
      * right. split; [reflexivity|]. now apply Exists_cons_hd.
    + destruct Hx as [(k & Hk & _)|[Hk Hr]]; [discriminate|].
      right. split; [congruence|]. now apply Exists_cons_hd.
Qed.

(** Integer rows are all accepted. *)
Lemma hash_tuple_atoms (t : list atom) :
  hash_tuple (map atom_value t) = Ok t.
Proof.
  induction t as [|a t IH]; [reflexivity|].
  cbn [map hash_tuple]. rewrite IH. now destruct a.
Qed.

Lemma set_of_tuples_dumped (data : list (list atom)) (acc : gset (list atom)) :
  set_of_tuples (map (fun t => PList (map atom_value t)) data) acc
  = Ok (acc ∪ list_to_set data).
Proof.
  revert acc. induction data as [|t data IH]; intros acc; cbn [map set_of_tuples].
  - f_equal. set_solver.
  - cbn [py_tuple py_iter]. cbn. rewrite hash_tuple_atoms. cbn.
    rewrite IH. f_equal. set_solver.
Qed.

End Loading.

Section SaveLoad.
Import Coverage.

Lemma save_run (O : SetOrder) (self : nat) (filename : string) (w : world) :
  save self filename w
  = if decide (filename ∈ denied w) then (Raise PermissionError, w)
    else (Ok tt,
          set_file filename
            (Json (PList (map (fun t => PList (map atom_value t))
                            (list_of_set (covered_of w self)))))
            (set_file filename NotJson w)).
Proof.
  unfold save, open_w, json_dump, get_covered, gets, modify.
  unfold mbind, M_mbind, M_bind.
  destruct (decide (filename ∈ denied w)); reflexivity.
Qed.

Lemma load_dumped (self : nat) (filename : string) (w : world)
    (data : list (list atom)) :
  filename ∉ denied w ->
  disk w !! filename = Some (Json (PList (map (fun t => PList (map atom_value t)) data))) ->
  load self filename w = (Ok tt, set_obj self {| covered := list_to_set data |} w).
Proof.
  intros Hd Hf. rewrite load_run. rewrite decide_False by exact Hd.
  rewrite Hf. cbn. rewrite set_of_tuples_dumped.
  now rewrite (left_id_L ∅ (∪)).
Qed.

End SaveLoad.

(** C3. For every covered set [C], wherever [save(path)] goes through, a
    [load(path)] of the same path afterwards (by the same tracker or by
    another one) returns normally and leaves exactly [C] as the covered set,
    in whatever order [save] listed the set. *)
Theorem save_load_roundtrip (O : Coverage.SetOrder) :
  Coverage.lists_the_set O ->
  forall (w : Coverage.world) (self other : nat) (path : string),
    fst (Coverage.save self path w) = Ok tt ->
    let w1 := snd (Coverage.save self path w) in
    fst (Coverage.load other path w1) = Ok tt
    /\ Coverage.covered_of (snd (Coverage.load other path w1)) other
       = Coverage.covered_of w self.
Proof.
  intros HO w self other path. rewrite save_run.
  destruct (decide (path ∈ Coverage.denied w)) as [|Hd]; [discriminate|].
  intros _. cbn [snd].
  rewrite (load_dumped other path _ (Coverage.list_of_set (Coverage.covered_of w self))).
  - cbn [fst snd]. split; [reflexivity|].
    rewrite covered_of_set_obj_same. cbn [Coverage.covered].
    rewrite (HO (Coverage.covered_of w self)). apply list_to_set_elements_L.
  - exact Hd.
  - cbn. apply lookup_insert_eq.
Qed.

Lemma save_load_roundtrip_witness :
  let w := snd ((_ ← Coverage.sample 0 1 2 0; Coverage.sample 0 3 4 1)
                  Coverage.empty_world) in
  let w1 := snd (@Coverage.save Coverage.elements_order 0 "cov.json" w) in
  fst (Coverage.load 1 "cov.json" w1) = Ok tt
  /\ Coverage.covered_of (snd (Coverage.load 1 "cov.json" w1)) 1
     = Coverage.covered_of w 0.
Proof.
  apply (save_load_roundtrip Coverage.elements_order).
  - intros s. reflexivity.
  - reflexivity.
Defined.

(** C8. A [load] that fails leaves the whole world, and so the tracker's
    covered set, as it was before the call: whether the file cannot be opened,
    is missing, does not hold JSON, or holds content the set construction
    rejects. *)
Theorem load_failure_keeps_state (w : Coverage.world) (self : nat)
    (path : string) (e : exn) :
  fst (Coverage.load self path w) = Raise e ->
  snd (Coverage.load self path w) = w
  /\ Coverage.covered_of (snd (Coverage.load self path w)) self
     = Coverage.covered_of w self.
Proof.
  rewrite load_run.
  destruct (decide (path ∈ Coverage.denied w)); [auto|].
  destruct (Coverage.disk w !! path) as [f|]; [|auto].
  destruct (_ ← Coverage.json_load f; _) as [s|e']; [discriminate|auto].
Qed.

Lemma load_failure_keeps_state_witness :
  let w := snd (Coverage.sample 0 1 2 0
             (Coverage.set_file "bad.json"
                (Coverage.Json (Coverage.PList [Coverage.PList [Coverage.PInt 3; Coverage.PInt 4; Coverage.PInt 1]; Coverage.PInt 7]))
                Coverage.empty_world)) in
  snd (Coverage.load 0 "bad.json" w) = w
  /\ Coverage.covered_of (snd (Coverage.load 0 "bad.json" w)) 0
     = Coverage.covered_of w 0.
Proof.
  apply (load_failure_keeps_state _ 0 "bad.json" TypeError).
  reflexivity.
Defined.

(** C5, as the code has it.  [load] validates nothing itself.  It fails
    exactly when the file cannot be opened, is missing, does not hold JSON,
    or holds a value that is not iterable or has an element that is not
    iterable (a number, a boolean, null) or that has a list or a dictionary
    among its items; everything else is turned into tuples and kept.  In
    particular every array of integer arrays is accepted, whatever the
    lengths of the rows and whatever the integers (carry bits included). *)
Theorem load_rejects_only_what_python_rejects (w : Coverage.world)
    (self : nat) (path : string) :
  ((exists e, fst (Coverage.load self path w) = Raise e) <->
     path ∈ Coverage.denied w
     \/ Coverage.disk w !! path = None
     \/ Coverage.disk w !! path = Some Coverage.NotJson
     \/ exists doc,
          Coverage.disk w !! path = Some (Coverage.Json doc)
          /\ (Coverage.not_iterable doc
              \/ Exists Coverage.rejected_element (Coverage.elements_of doc)))
  /\ (forall rows : list (list Z),
        path ∉ Coverage.denied w ->
        Coverage.disk w !! path
        = Some (Coverage.Json (Coverage.PList
                  (map (fun r => Coverage.PList (map Coverage.PInt r)) rows))) ->
        fst (Coverage.load self path w) = Ok tt
        /\ Coverage.covered_of (snd (Coverage.load self path w)) self
           = list_to_set (map (map Coverage.AInt) rows)).
Proof.
  split.
  - rewrite load_run.
    destruct (decide (path ∈ Coverage.denied w)) as [Hd|Hd].
    { split; [auto|]. intros _. eexists. reflexivity. }
    destruct (Coverage.disk w !! path) as [[|doc]|] eqn:Hf; cbn.
    + split; [auto|]. intros _. eexists. reflexivity.
    + destruct (py_iter_cases doc) as [[-> Hdoc]|[-> Hdoc]]; cbn.
      * destruct (set_of_tuples_cases (Coverage.elements_of doc) ∅)
          as [(s & -> & Hs)|[-> Hs]]; cbn.
        -- split; [intros [e He]; discriminate|].
           intros [?|[?|[?|(doc' & Hdoc' & [Hn|Hex])]]];
             try tauto; try discriminate.
           ++ congruence.
           ++ exfalso. injection Hdoc' as <-.
              apply Exists_exists in Hex as (x & Hx & Hr).
              rewrite Forall_forall in Hs. exact (Hs x Hx Hr).
        -- split; [|intros _; eexists; reflexivity].
           intros _. do 3 right. exists doc. auto.
      * split; [|intros _; eexists; reflexivity].
        intros _. do 3 right. exists doc. auto.
    + split; [auto|]. intros _. eexists. reflexivity.
  - intros rows Hd Hf.
    rewrite (load_dumped self path w (map (map Coverage.AInt) rows)).
    + cbn [fst snd]. split; [reflexivity|]. apply covered_of_set_obj_same.
    + exact Hd.
    + rewrite Hf. do 3 f_equal. rewrite map_map. apply map_ext.
      intros r. f_equal. now rewrite map_map.
Qed.

Lemma load_rejects_only_what_python_rejects_witness :
  let w := Coverage.set_file "cov.json"
             (Coverage.Json (Coverage.PList
                [Coverage.PList [Coverage.PInt 7; Coverage.PInt 12];
                 Coverage.PList [Coverage.PInt 1; Coverage.PInt 2; Coverage.PInt (-4)]]))
             Coverage.empty_world in
  fst (Coverage.load 0 "cov.json" w) = Ok tt
  /\ Coverage.covered_of (snd (Coverage.load 0 "cov.json" w)) 0
     = list_to_set (map (map Coverage.AInt) [[7; 12]; [1; 2; -4]]).
Proof.
  apply (proj2 (load_rejects_only_what_python_rejects _ 0 "cov.json")
           [[7; 12]; [1; 2; -4]]).
  - vm_compute. discriminate.
  - reflexivity.
Defined.

(** C5 as stated fails on a file holding [[[1, 2, 5]]]: the carry bit 5 is
    neither 0 nor 1, yet [load] returns normally and the covered set becomes
    [{(1, 2, 5)}]. *)
Lemma load_accepts_bad_carry_counterexample :
  let w := Coverage.set_file "cov.json"
             (Coverage.Json (Coverage.PList
                [Coverage.PList [Coverage.PInt 1; Coverage.PInt 2; Coverage.PInt 5]]))
             Coverage.empty_world in
  fst (Coverage.load 0 "cov.json" w) = Ok tt
  /\ Coverage.covered_of (snd (Coverage.load 0 "cov.json" w)) 0
     = {[ Coverage.tuple3 1 2 5 ]}.
Proof. split; reflexivity. Qed.

(** * Further properties of the code *)

(** ** The reference model on arbitrary integers *)

(** For every width [N >= 0] and all integers, in range or not, the reference
    model returns a sum in [[0, 2^N - 1]] and a carry that together lose
    nothing: [a + b + c_in = c_out * 2^N + sum]. *)
Theorem reference_model_decomposes (N a b c_in : Z) :
  0 <= N ->
  exists s c,
    TestAddBasic.reference_model N a b c_in = Ok (s, c)
    /\ 0 <= s <= 2 ^ N - 1
    /\ a + b + c_in = c * 2 ^ N + s.
Proof.
  intros HN. rewrite reference_model_eq by exact HN.
  assert (0 < 2 ^ N) as Hpow by (apply Z.pow_pos_nonneg; lia).
  eexists _, _. split; [reflexivity|]. split.
  - pose proof (Z.mod_pos_bound (a + b + c_in) (2 ^ N) Hpow). lia.
  - pose proof (Z.div_mod (a + b + c_in) (2 ^ N) ltac:(lia)). lia.
Qed.

Lemma reference_model_decomposes_witness :
  exists s c,
    TestAddBasic.reference_model 4 (-3) 1 0 = Ok (s, c)
    /\ 0 <= s <= 2 ^ 4 - 1
    /\ -3 + 1 + 0 = c * 2 ^ 4 + s.
Proof. apply (reference_model_decomposes 4 (-3) 1 0). lia. Defined.

(** A negative width makes the reference model raise [ValueError], whatever
    the operands. *)
Theorem reference_model_negative_width (N a b c_in : Z) :
  N < 0 -> TestAddBasic.reference_model N a b c_in = Raise ValueError.
Proof.
  intros HN. unfold TestAddBasic.reference_model, TestAddBasic.mask, lshift.
  destruct (N <? 0) eqn:E; [reflexivity|lia].
Qed.

Lemma reference_model_negative_width_witness :
  TestAddBasic.reference_model (-1) 7 12 0 = Raise ValueError.
Proof. apply (reference_model_negative_width (-1) 7 12 0). lia. Defined.

(** The carry the reference model returns is not checked to be a bit: for
    [N >= 0] it is 0 or 1 exactly when [0 <= a + b + c_in < 2^(N+1)]. *)
Theorem reference_model_carry_bit_iff (N a b c_in : Z) :
  0 <= N ->
  exists s c,
    TestAddBasic.reference_model N a b c_in = Ok (s, c)
    /\ ((c = 0 \/ c = 1) <-> 0 <= a + b + c_in < 2 ^ (N + 1)).
Proof.
  intros HN. rewrite reference_model_eq by exact HN.
  assert (0 < 2 ^ N) as Hpow by (apply Z.pow_pos_nonneg; lia).
  replace (2 ^ (N + 1)) with (2 * 2 ^ N)
    by (rewrite <- Z.pow_succ_r by exact HN; reflexivity).
  eexists _, _. split; [reflexivity|].
  pose proof (Z.div_mod (a + b + c_in) (2 ^ N) ltac:(lia)) as Hdm.
  pose proof (Z.mod_pos_bound (a + b + c_in) (2 ^ N) Hpow) as Hm.
  split.
  - intros [Hc|Hc]; rewrite Hc in Hdm; lia.
  - intros Ht.
    assert (0 <= (a + b + c_in) / 2 ^ N < 2); [|lia].
    split; [apply Z.div_pos; lia|apply Z.div_lt_upper_bound; lia].
Qed.

Lemma reference_model_carry_bit_iff_witness :
  exists s c,
    TestAddBasic.reference_model 4 15 15 3 = Ok (s, c)
    /\ ((c = 0 \/ c = 1) <-> 0 <= 15 + 15 + 3 < 2 ^ (4 + 1)).
Proof. apply (reference_model_carry_bit_iff 4 15 15 3). lia. Defined.

(** ** The stimulus generator, without any assumption on the random source *)

Section GeneratorSteps.
Import Sequence.
Context (R : RandomGen).

Lemma randint_run (a b : Z) (s : rng) :
  a <= b -> randint a b s = (Ok (fst (draw a b s)), snd (draw a b s)).
Proof.
  intros Hab. unfold randint. destruct (b <? a) eqn:E; [lia|].
  now destruct (draw a b s).
Qed.

(** The loop only ever appends to what it was given. *)
Lemma generate_loop_appends (n : nat) (max_val : Z) :
  0 <= max_val ->
  forall s : rng, exists vs s',
    length vs = n
    /\ forall acc, generate_loop n max_val acc s = (Ok (acc ++ vs), s').
Proof.
  intros Hm. induction n as [|n IH]; intros s.
  - exists [], s. split; [reflexivity|]. intros acc. now rewrite app_nil_r.
  - set (s1 := snd (draw 0 max_val s)).
    set (s2 := snd (draw 0 max_val s1)).
    set (s3 := snd (draw 0 1 s2)).
    destruct (IH s3) as (vs & s' & Hlen & Hvs).
    exists ((fst (draw 0 max_val s), fst (draw 0 max_val s1), fst (draw 0 1 s2)) :: vs), s'.
    split; [cbn; now rewrite Hlen|].
    intros acc. cbn [generate_loop]. unfold mbind, M_mbind, M_bind.
    rewrite (randint_run 0 max_val s Hm). fold s1.
    rewrite (randint_run 0 max_val s1 Hm). fold s2.
    rewrite (randint_run 0 1 s2 ltac:(lia)). fold s3.
    rewrite Hvs. now rewrite <- app_assoc.
Qed.

Lemma generate_loop_add (n m : nat) (max_val : Z) (acc : list (Z * Z * Z)) (s : rng) :
  0 <= max_val ->
  generate_loop (n + m) max_val acc s
  = match generate_loop n max_val acc s with
    | (Ok vs, s') => generate_loop m max_val vs s'
    | (Raise e, s') => (Raise e, s')
    end.
Proof.
  intros Hm. revert acc s. induction n as [|n IH]; intros acc s; [reflexivity|].
  cbn [Nat.add generate_loop]. unfold mbind, M_mbind, M_bind.
  rewrite (randint_run 0 max_val s Hm).
  rewrite (randint_run 0 max_val _ Hm).
  rewrite (randint_run 0 1 _ ltac:(lia)).
  apply IH.
Qed.

Lemma generate_vectors_run (N : Z) (k : option Z) (s : rng) :
  0 <= N ->
  generate_vectors (init N) k s
  = generate_loop (Z.to_nat (default 1 k)) (2 ^ N - 1) [] s.
Proof.
  intros HN. unfold generate_vectors, init, lift, lshift. cbn [width].
  destruct (N <? 0) eqn:E; [lia|].
  unfold mbind, M_mbind, M_bind. now rewrite Z.shiftl_1_l.
Qed.

End GeneratorSteps.

(** A count of zero or less gives the empty list and draws nothing: the
    random source is left in the state it was in. *)
Theorem generate_vectors_no_count (R : Sequence.RandomGen) (N k : Z)
    (s : Sequence.rng) :
  0 <= N -> k <= 0 ->
  Sequence.generate_vectors (Sequence.init N) (Some k) s = (Ok [], s).
Proof.
  intros HN Hk. rewrite generate_vectors_run by exact HN.
  cbn [default from_option id].
  replace (Z.to_nat k) with 0%nat by lia. reflexivity.
Qed.

Lemma generate_vectors_no_count_witness :
  @Sequence.generate_vectors Sequence.lcg (Sequence.init 4) (Some (-2)) 42
  = (Ok [], 42).
Proof. apply (generate_vectors_no_count Sequence.lcg 4 (-2) 42); lia. Defined.

(** Asking for [k1 + k2] vectors is asking for [k1] and then, from where the
    random source was left, for [k2]: the result is the two lists one after
    the other.  This holds for any random source. *)
Theorem generate_vectors_append (R : Sequence.RandomGen) (N k1 k2 : Z)
    (s : Sequence.rng) :
  0 <= N -> 0 <= k1 -> 0 <= k2 ->
  exists v1 s1 v2 s2,
    Sequence.generate_vectors (Sequence.init N) (Some k1) s = (Ok v1, s1)
    /\ Sequence.generate_vectors (Sequence.init N) (Some k2) s1 = (Ok v2, s2)
    /\ Sequence.generate_vectors (Sequence.init N) (Some (k1 + k2)) s
       = (Ok (v1 ++ v2), s2).
Proof.
  intros HN Hk1 Hk2.
  assert (0 <= 2 ^ N - 1) as Hm
    by (assert (0 < 2 ^ N) by (apply Z.pow_pos_nonneg; lia); lia).
  destruct (generate_loop_appends R (Z.to_nat k1) _ Hm s) as (v1 & s1 & _ & H1).
  destruct (generate_loop_appends R (Z.to_nat k2) _ Hm s1) as (v2 & s2 & _ & H2).
  exists v1, s1, v2, s2.
  rewrite !generate_vectors_run by exact HN. cbn [default from_option id].
  split; [apply H1|]. split; [apply H2|].
  rewrite Z2Nat.inj_add by lia. rewrite generate_loop_add by exact Hm.
  rewrite H1. cbn [app]. apply H2.
Qed.

Lemma generate_vectors_append_witness :
  exists v1 s1 v2 s2,
    @Sequence.generate_vectors Sequence.lcg (Sequence.init 4) (Some 2) 42 = (Ok v1, s1)
    /\ @Sequence.generate_vectors Sequence.lcg (Sequence.init 4) (Some 1) s1 = (Ok v2, s2)
    /\ @Sequence.generate_vectors Sequence.lcg (Sequence.init 4) (Some (2 + 1)) 42
       = (Ok (v1 ++ v2), s2).
Proof. apply (generate_vectors_append Sequence.lcg 4 2 1 42); lia. Defined.

(** ** The configurations *)




(** ** The checking step as a decision *)

(** The checking step returns normally exactly when both outputs equal the
    expected values: it never lets a wrong sum or a wrong carry through, and
    never fails a right pair. *)
Theorem check_passes_iff (dut : Asserts.dut_handle)
    (expected_sum expected_c_out : Z) (log : list Asserts.signal) :
  fst (Asserts.check dut expected_sum expected_c_out log) = Ok tt
  <-> Asserts.sum_value dut = expected_sum
      /\ Asserts.c_out_value dut = expected_c_out.
Proof.
  unfold Asserts.check, mbind, M_mbind, M_bind.
  rewrite assert_adder_sum_run.
  destruct (Z.eqb_spec (Asserts.sum_value dut) expected_sum) as [Hs|Hs].
  - rewrite assert_adder_c_out_run.
    destruct (Z.eqb_spec (Asserts.c_out_value dut) expected_c_out) as [Hc|Hc];
      cbn; split; try tauto; discriminate.
  - cbn. split; [discriminate|]. tauto.
Qed.

(** ** The coverage collector: what each method leaves alone *)

Section CoverageFrames.
Import Coverage.

Lemma covered_of_set_file (w : world) (p : string) (c : file_content) (l : nat) :
  covered_of (set_file p c w) l = covered_of w l.
Proof. reflexivity. Qed.

Lemma load_ok_run (self : nat) (path : string) (w : world) :
  fst (load self path w) = Ok tt ->
  exists s, load self path w = (Ok tt, set_obj self {| covered := s |} w).
Proof.
  rewrite load_run.
  destruct (decide (path ∈ denied w)); [discriminate|].
  destruct (disk w !! path) as [f|]; [|discriminate].
  destruct (_ ← json_load f; _) as [s|e]; [|discriminate].
  intros _. now exists s.
Qed.

End CoverageFrames.

(** [sample] never removes a tuple, and touches nothing but the receiver's
    set: every other tracker, every file and the output are as before. *)
Theorem sample_frame (w : Coverage.world) (self : nat) (a b c_in : Z) :
  let w' := snd (Coverage.sample self a b c_in w) in
  Coverage.covered_of w self ⊆ Coverage.covered_of w' self
  /\ (forall other, other <> self ->
        Coverage.covered_of w' other = Coverage.covered_of w other)
  /\ Coverage.disk w' = Coverage.disk w
  /\ Coverage.denied w' = Coverage.denied w
  /\ Coverage.stdout w' = Coverage.stdout w.
Proof.
  cbn zeta. rewrite sample_run. cbn [snd]. split; [|split].
  - rewrite covered_of_set_obj_same. cbn. set_solver.
  - intros other Hne. rewrite covered_of_set_obj. now rewrite decide_False.
  - repeat split.
Qed.

(** The order of two samples does not matter: either way every tracker ends
    with the same covered set. *)
Theorem sample_commutes (w : Coverage.world) (self : nat)
    (a1 b1 c1 a2 b2 c2 : Z) (l : nat) :
  Coverage.covered_of
    (snd (Coverage.sample self a2 b2 c2 (snd (Coverage.sample self a1 b1 c1 w)))) l
  = Coverage.covered_of
      (snd (Coverage.sample self a1 b1 c1 (snd (Coverage.sample self a2 b2 c2 w)))) l.
Proof.
  rewrite !sample_run. cbn [snd].
  repeat (rewrite !covered_of_set_obj; cbn [Coverage.covered]).
  repeat case_decide; try congruence; set_solver.
Qed.

(** [load] overwrites: when it succeeds, the covered set it leaves does not
    depend on what the tracker held before; nothing of the old set is kept. *)
Theorem load_overwrites (w : Coverage.world) (self : nat) (path : string)
    (prior : gset (list Coverage.atom)) :
  fst (Coverage.load self path w) = Ok tt ->
  let w0 := Coverage.set_obj self {| Coverage.covered := prior |} w in
  fst (Coverage.load self path w0) = Ok tt
  /\ Coverage.covered_of (snd (Coverage.load self path w0)) self
     = Coverage.covered_of (snd (Coverage.load self path w)) self.
Proof.
  cbn zeta. rewrite !load_run. cbn [Coverage.denied Coverage.disk Coverage.set_obj].
  destruct (decide (path ∈ Coverage.denied w)); [discriminate|].
  destruct (Coverage.disk w !! path) as [f|]; [|discriminate].
  destruct (_ ← Coverage.json_load f; _) as [s|e]; [|discriminate].
  intros _. cbn [fst snd]. split; [reflexivity|].
  now rewrite !covered_of_set_obj_same.
Qed.

Lemma load_overwrites_witness :
  let w := snd (Coverage.sample 0 9 9 1
             (Coverage.set_file "cov.json"
                (Coverage.Json (Coverage.PList
                   [Coverage.PList [Coverage.PInt 1; Coverage.PInt 2; Coverage.PInt 0]]))
                Coverage.empty_world)) in
  let w0 := Coverage.set_obj 0 {| Coverage.covered := {[ Coverage.tuple3 5 5 0 ]} |} w in
  fst (Coverage.load 0 "cov.json" w0) = Ok tt
  /\ Coverage.covered_of (snd (Coverage.load 0 "cov.json" w0)) 0
     = Coverage.covered_of (snd (Coverage.load 0 "cov.json" w)) 0.
Proof.
  apply (load_overwrites _ 0 "cov.json" {[ Coverage.tuple3 5 5 0 ]}).
  reflexivity.
Defined.

(** A successful [load] changes the receiver's set and nothing else: the
    files, the output and every other tracker are as before. *)
Theorem load_frame (w : Coverage.world) (self : nat) (path : string) :
  fst (Coverage.load self path w) = Ok tt ->
  let w' := snd (Coverage.load self path w) in
  (forall other, other <> self ->
     Coverage.covered_of w' other = Coverage.covered_of w other)
  /\ Coverage.disk w' = Coverage.disk w
  /\ Coverage.denied w' = Coverage.denied w
  /\ Coverage.stdout w' = Coverage.stdout w.
Proof.
  intros Hok. destruct (load_ok_run self path w Hok) as [s ->]. cbn [snd].
  split; [|repeat split].
  intros other Hne. rewrite covered_of_set_obj. now rewrite decide_False.
Qed.

Lemma load_frame_witness :
  let w := snd (Coverage.sample 1 9 9 1
             (Coverage.set_file "cov.json"
                (Coverage.Json (Coverage.PList
                   [Coverage.PList [Coverage.PInt 1; Coverage.PInt 2; Coverage.PInt 0]]))
                Coverage.empty_world)) in
  let w' := snd (Coverage.load 0 "cov.json" w) in
  (forall other, other <> 0%nat ->
     Coverage.covered_of w' other = Coverage.covered_of w other)
  /\ Coverage.disk w' = Coverage.disk w
  /\ Coverage.denied w' = Coverage.denied w
  /\ Coverage.stdout w' = Coverage.stdout w.
Proof. apply (load_frame _ 0 "cov.json"). reflexivity. Defined.



(** Merging the same tracker in a second time changes nothing, merging a
    tracker into itself changes nothing, and [merge] touches nothing but the
    receiver's set. *)
Theorem merge_idempotent_frame (w : Coverage.world) (a b : nat) :
  let w1 := snd (Coverage.merge a b w) in
  let w2 := snd (Coverage.merge a b w1) in
  (forall l, Coverage.covered_of w2 l = Coverage.covered_of w1 l)
  /\ (forall l, Coverage.covered_of (snd (Coverage.merge a a w)) l
                = Coverage.covered_of w l)
  /\ (forall l, l <> a -> Coverage.covered_of w1 l = Coverage.covered_of w l)
  /\ Coverage.disk w1 = Coverage.disk w
  /\ Coverage.denied w1 = Coverage.denied w
  /\ Coverage.stdout w1 = Coverage.stdout w.
Proof.
  cbn zeta. rewrite !merge_run. cbn [snd].
  split; [|split; [|split; [|repeat split]]]; intros l.
  - repeat (rewrite !covered_of_set_obj; cbn [Coverage.covered]).
    repeat case_decide; try congruence; set_solver.
  - rewrite covered_of_set_obj. cbn [Coverage.covered].
    case_decide; [subst; apply union_idemp_L|reflexivity].
  - intros Hne. rewrite covered_of_set_obj. now rewrite decide_False.
Qed.

(** After [A.merge(B)] the count of A is at least each of the two counts and
    at most their sum. *)
Theorem merge_size_bounds (w : Coverage.world) (a b : nat) :
  let n := size (Coverage.covered_of (snd (Coverage.merge a b w)) a) in
  (size (Coverage.covered_of w a) <= n
   /\ size (Coverage.covered_of w b) <= n
   /\ n <= size (Coverage.covered_of w a) + size (Coverage.covered_of w b))%nat.
Proof.
  cbn zeta. rewrite merge_run. cbn [snd]. rewrite covered_of_set_obj_same.
  cbn [Coverage.covered]. split; [|split].
  - apply subseteq_size. set_solver.
  - apply subseteq_size. set_solver.
  - rewrite size_union_alt.
    assert (size (Coverage.covered_of w b ∖ Coverage.covered_of w a)
            <= size (Coverage.covered_of w b))%nat
      by (apply subseteq_size; set_solver).
    lia.
Qed.

(** Carrying coverage from one run to another: once A has saved to a path,
    a tracker B that loads the path and is then merged into a third tracker C
    adds exactly A's set to C's. *)
Theorem save_load_merge (O : Coverage.SetOrder) :
  Coverage.lists_the_set O ->
  forall (w : Coverage.world) (a b c : nat) (path : string),
    fst (Coverage.save a path w) = Ok tt ->
    b <> c ->
    let w1 := snd (Coverage.save a path w) in
    let w2 := snd (Coverage.load b path w1) in
    let w3 := snd (Coverage.merge c b w2) in
    fst (Coverage.load b path w1) = Ok tt
    /\ Coverage.covered_of w3 c
       = Coverage.covered_of w c ∪ Coverage.covered_of w a.
Proof.
  intros HO w a b c path. rewrite save_run.
  destruct (decide (path ∈ Coverage.denied w)) as [|Hd]; [discriminate|].
  intros _ Hbc. cbn [snd].
  rewrite (load_dumped b path _ (Coverage.list_of_set (Coverage.covered_of w a)));
    [|exact Hd|cbn; apply lookup_insert_eq].
  cbn [fst snd]. split; [reflexivity|].
  rewrite merge_run. cbn [snd].
  repeat (rewrite !covered_of_set_obj; cbn [Coverage.covered]).
  rewrite !covered_of_set_file.
  rewrite decide_True by reflexivity.
  rewrite (decide_False (P := c = b)) by congruence.
  rewrite decide_True by reflexivity.
  rewrite (HO (Coverage.covered_of w a)). now rewrite list_to_set_elements_L.
Qed.

Lemma save_load_merge_witness :
  let w := snd ((_ ← Coverage.sample 0 1 2 0; Coverage.sample 2 3 4 1)
                  Coverage.empty_world) in
  let w1 := snd (@Coverage.save Coverage.elements_order 0 "cov.json" w) in
  let w2 := snd (Coverage.load 1 "cov.json" w1) in
  let w3 := snd (Coverage.merge 2 1 w2) in
  fst (Coverage.load 1 "cov.json" w1) = Ok tt
  /\ Coverage.covered_of w3 2
     = Coverage.covered_of w 2 ∪ Coverage.covered_of w 0.
Proof.
  apply (save_load_merge Coverage.elements_order).
  - intros s. reflexivity.
  - reflexivity.
  - lia.
Defined.

(** ** The test *)

Section TestSteps.
Import Sequence Asserts TestBench.
Context {R : RandomGen} {D : Dut}.

(** One turn of the loop, spelled out. *)
Lemma run_vectors_cons (ports : Config.port_names) (N mask : Z) (cov : nat)
    (a b c_in : Z) (rest : list (Z * Z * Z)) (st : state R D) :
  0 <= N ->
  run_vectors ports N mask cov ((a, b, c_in) :: rest) st
  = let d' := timer_1ns (write (Config.port_c_in ports) c_in
                (write (Config.port_b ports) b
                   (write (Config.port_a ports) a (st_dut st)))) in
    let es := Z.land (a + b + c_in) mask in
    let ec := Z.shiftr (a + b + c_in) N in
    if sum_value (handle d') =? es then
      if c_out_value (handle d') =? ec then
        run_vectors ports N mask cov rest
          {| st_rng := st_rng st; st_dut := d';
             st_log := (st_log st ++ [SigSum]) ++ [SigCOut];
             st_world := snd (Coverage.sample cov a b c_in (st_world st)) |}
      else
        (fst (assert_adder_c_out (handle d') ec (st_log st ++ [SigSum])),
         {| st_rng := st_rng st; st_dut := d';
            st_log := (st_log st ++ [SigSum]) ++ [SigCOut];
            st_world := st_world st |})
    else
      (fst (assert_adder_sum (handle d') es (st_log st)),
       {| st_rng := st_rng st; st_dut := d';
          st_log := st_log st ++ [SigSum];
          st_world := st_world st |}).
Proof.
  intros HN. cbn [run_vectors]. cbn zeta.
  unfold drive, on_dut, with_dut, with_world, modify, lift, rshift.
  destruct (N <? 0) eqn:E; [lia|].
  unfold mbind, M_mbind, M_bind. cbn [st_rng st_dut st_log st_world].
  rewrite !assert_adder_sum_run. cbn [fst].
  destruct (sum_value _ =? _); [|reflexivity].
  cbn [st_rng st_dut st_log st_world].
  rewrite !assert_adder_c_out_run. cbn [fst].
  destruct (c_out_value _ =? _); reflexivity.
Qed.

Lemma test_adder_basic_run (CONFIG : Config.config) (cov : nat) (st : state R D) :
  0 <= N_value (st_dut st) ->
  exists a b c_in g,
    generate_vectors (Sequence.init (N_value (st_dut st))) None (st_rng st)
    = (Ok [(a, b, c_in)], g)
    /\ test_adder_basic CONFIG cov st
       = (_ ← run_vectors (Config.ports CONFIG) (N_value (st_dut st))
                (2 ^ N_value (st_dut st) - 1) cov [(a, b, c_in)];
          with_world (Coverage.report cov))
           {| st_rng := g; st_dut := st_dut st; st_log := st_log st;
              st_world := Coverage.set_obj cov {| Coverage.covered := ∅ |}
                            (st_world st) |}.
Proof.
  intros HN.
  assert (0 <= 2 ^ N_value (st_dut st) - 1) as Hm
    by (assert (0 < 2 ^ N_value (st_dut st)) by (apply Z.pow_pos_nonneg; lia); lia).
  pose proof (generate_vectors_run R (N_value (st_dut st)) None (st_rng st) HN) as Hgv.
  destruct (generate_loop_appends R 1 _ Hm (st_rng st)) as (vs & g & Hlen & Hvs).
  destruct vs as [|[[a b] c_in] [|? ?]]; try discriminate.
  exists a, b, c_in, g.
  change (Z.to_nat (default 1 None)) with 1%nat in Hgv.
  rewrite (Hvs []) in Hgv. cbn [app] in Hgv. split; [exact Hgv|].
  unfold test_adder_basic, gets, with_world, with_rng, lift,
    TestAddBasic.mask, lshift.
  destruct (N_value (st_dut st) <? 0) eqn:E; [lia|].
  unfold mbind at 1 2 3 4, M_mbind at 1 2 3 4, M_bind at 1 2 3 4.
  cbn [st_rng st_dut st_log st_world fst snd Coverage.init].
  rewrite E, init_run.
  cbn [mbind result_mbind result_bind mret result_ret
       st_rng st_dut st_log st_world].
  rewrite Hgv. rewrite Z.shiftl_1_l. reflexivity.
Qed.

End TestSteps.

Section TestOnAdder.
Import Sequence Asserts TestBench.
Context {R : RandomGen} {D : Dut}.

Lemma size_add_one (s : gset (list Coverage.atom)) (x : list Coverage.atom) :
  (size (s ∪ {[x]}) <= size s + 1)%nat.
Proof. apply size_add_le. Qed.

Lemma run_vectors_adder_ok (ports : Config.port_names) (N : Z) (cov : nat)
    (vectors : list (Z * Z * Z)) :
  adds_correctly ports -> 0 <= N ->
  Forall (vector_in_range N) vectors ->
  forall st : state R D,
    N_value (st_dut st) = N ->
    exists st',
      run_vectors ports N (Z.shiftl 1 N - 1) cov vectors st = (Ok tt, st')
      /\ Coverage.covered_of (st_world st') cov
         = Coverage.covered_of (st_world st) cov
           ∪ list_to_set (map (fun '(a, b, c_in) => Coverage.tuple3 a b c_in) vectors)
      /\ Coverage.stdout (st_world st') = Coverage.stdout (st_world st)
      /\ st_rng st' = st_rng st
      /\ (size (Coverage.covered_of (st_world st') cov)
          <= size (Coverage.covered_of (st_world st) cov) + length vectors)%nat.
Proof.
  intros Hadd HN Hall. induction Hall as [|[[a b] c_in] rest Hv Hrest IH];
    intros st HNst.
  - exists st. cbn. split; [reflexivity|].
    split; [now rewrite (right_id_L ∅ (∪))|]. repeat split. lia.
  - rewrite run_vectors_cons by exact HN. cbn zeta.
    rewrite <- HNst in Hv.
    destruct (Hadd (st_dut st) a b c_in Hv) as [HN' Hh]. cbn zeta in HN', Hh.
    rewrite Hh. cbn [sum_value c_out_value].
    rewrite HNst, land_mask_mod, Z.shiftr_div_pow2, !Z.eqb_refl by exact HN.
    match goal with |- context [run_vectors _ _ _ _ _ ?s] => set (st1 := s) end.
    destruct (IH st1) as (st' & Hrun & Hcov & Hout & Hrng & Hsize).
    { subst st1. cbn [st_dut]. congruence. }
    exists st'. split; [exact Hrun|].
    subst st1. cbn [st_world st_rng] in *. rewrite sample_run in *.
    cbn [snd] in *. rewrite covered_of_set_obj_same in *.
    cbn [Coverage.covered Coverage.stdout Coverage.set_obj] in *.
    split; [|split; [exact Hout|split; [exact Hrng|]]].
    + rewrite Hcov. cbn [map]. rewrite list_to_set_cons. set_solver.
    + pose proof (size_add_one (Coverage.covered_of (st_world st) cov)
                    (Coverage.tuple3 a b c_in)).
      cbn [length]. lia.
Qed.

End TestOnAdder.

(** On a circuit that adds correctly, the loop of the test passes every list
    of in-range vectors, and afterwards the tracker holds what it held before
    together with every vector of the list; nothing is printed, no random
    number is drawn, and the count has grown by at most the length of the
    list. *)
Theorem run_vectors_covers_all (R : Sequence.RandomGen) (D : TestBench.Dut)
    (ports : Config.port_names) (N mask : Z) (cov : nat)
    (vectors : list (Z * Z * Z)) (st : TestBench.state R D) :
  TestBench.adds_correctly ports ->
  TestBench.N_value (TestBench.st_dut st) = N ->
  TestAddBasic.mask N = Ok mask ->
  Forall (Sequence.vector_in_range N) vectors ->
  exists st',
    TestBench.run_vectors ports N mask cov vectors st = (Ok tt, st')
    /\ Coverage.covered_of (TestBench.st_world st') cov
       = Coverage.covered_of (TestBench.st_world st) cov
         ∪ list_to_set (map (fun '(a, b, c_in) => Coverage.tuple3 a b c_in) vectors)
    /\ Coverage.stdout (TestBench.st_world st')
       = Coverage.stdout (TestBench.st_world st)
    /\ TestBench.st_rng st' = TestBench.st_rng st
    /\ (size (Coverage.covered_of (TestBench.st_world st') cov)
        <= size (Coverage.covered_of (TestBench.st_world st) cov)
           + length vectors)%nat.
Proof.
  intros Hadd HNst Hmask Hall.
  unfold TestAddBasic.mask, lshift in Hmask.
  destruct (N <? 0) eqn:E; [discriminate|]. cbn in Hmask.
  injection Hmask as <-.
  apply run_vectors_adder_ok; try assumption. lia.
Qed.

Lemma ideal_adder_adds :
  @TestBench.adds_correctly TestBench.ideal_adder
    {| Config.port_a := "a"; Config.port_b := "b"; Config.port_c_in := "c_in";
       Config.port_sum := "sum"; Config.port_c_out := "c_out" |}.
Proof. intros d a b c_in _. split; reflexivity. Qed.

Lemma run_vectors_covers_all_witness :
  exists st',
    @TestBench.run_vectors Sequence.lcg TestBench.ideal_adder
      {| Config.port_a := "a"; Config.port_b := "b"; Config.port_c_in := "c_in";
         Config.port_sum := "sum"; Config.port_c_out := "c_out" |}
      4 15 0 [(7, 12, 0); (1, 2, 1); (7, 12, 0)]
      (@TestBench.start Sequence.lcg TestBench.ideal_adder 42
         {| TestBench.reg_N := 4; TestBench.reg_a := 0; TestBench.reg_b := 0;
            TestBench.reg_c_in := 0 |})
    = (Ok tt, st')
    /\ Coverage.covered_of (TestBench.st_world st') 0
       = Coverage.covered_of Coverage.empty_world 0
         ∪ list_to_set (map (fun '(a, b, c_in) => Coverage.tuple3 a b c_in)
                          [(7, 12, 0); (1, 2, 1); (7, 12, 0)])
    /\ Coverage.stdout (TestBench.st_world st') = []
    /\ TestBench.st_rng st' = 42
    /\ (size (Coverage.covered_of (TestBench.st_world st') 0)
        <= size (Coverage.covered_of Coverage.empty_world 0) + 3)%nat.
Proof.
  apply (run_vectors_covers_all Sequence.lcg TestBench.ideal_adder _ 4 15 0
           [(7, 12, 0); (1, 2, 1); (7, 12, 0)]).
  - exact ideal_adder_adds.
  - reflexivity.
  - reflexivity.
  - repeat constructor; cbn; lia.
Defined.



Lemma report_eq (self : nat) (w : Coverage.world) :
  Coverage.report self w
  = (Ok tt,
     {| Coverage.objs := Coverage.objs w; Coverage.disk := Coverage.disk w;
        Coverage.denied := Coverage.denied w;
        Coverage.stdout :=
          Coverage.stdout w
          ++ ["[Coverage] Total unique input combinations: "
                +:+ pretty (size (Coverage.covered_of w self))] |}).
Proof. reflexivity. Qed.

Lemma test_negative_width_run (R : Sequence.RandomGen) (D : TestBench.Dut)
    (CONFIG : Config.config) (cov : nat) (st : TestBench.state R D) :
  TestBench.N_value (TestBench.st_dut st) < 0 ->
  TestBench.test_adder_basic CONFIG cov st
  = (Raise ValueError,
     {| TestBench.st_rng := TestBench.st_rng st;
        TestBench.st_dut := TestBench.st_dut st;
        TestBench.st_log := TestBench.st_log st;
        TestBench.st_world :=
          Coverage.set_obj cov {| Coverage.covered := ∅ |} (TestBench.st_world st) |}).
Proof.
  intros HN.
  unfold TestBench.test_adder_basic, gets, TestBench.with_world, lift,
    TestAddBasic.mask, lshift.
  unfold mbind at 1 2 3, M_mbind at 1 2 3, M_bind at 1 2 3.
  destruct (TestBench.N_value (TestBench.st_dut st) <? 0) eqn:E; [|lia].
  rewrite init_run. reflexivity.
Qed.

(** With a negative width parameter the test raises [ValueError] at the mask,
    after the tracker was created and before anything else: no number is
    drawn, the circuit is not driven, no signal is read, nothing is printed. *)
Theorem test_adder_basic_negative_width (R : Sequence.RandomGen)
    (D : TestBench.Dut) (CONFIG : Config.config) (cov : nat)
    (st : TestBench.state R D) :
  TestBench.N_value (TestBench.st_dut st) < 0 ->
  TestBench.test_adder_basic CONFIG cov st
  = (Raise ValueError,
     {| TestBench.st_rng := TestBench.st_rng st;
        TestBench.st_dut := TestBench.st_dut st;
        TestBench.st_log := TestBench.st_log st;
        TestBench.st_world :=
          Coverage.set_obj cov {| Coverage.covered := ∅ |} (TestBench.st_world st) |}).
Proof. apply test_negative_width_run. Qed.

Lemma test_adder_basic_negative_width_witness :
  let CONFIG := {| Config.name := "cla"; Config.top_module := "cla";
                   Config.rtl_files := ["rtl/cla4.v"; "rtl/cla.v"];
                   Config.parameter_N := 4;
                   Config.ports :=
                     {| Config.port_a := "a"; Config.port_b := "b";
                        Config.port_c_in := "c_in"; Config.port_sum := "sum";
                        Config.port_c_out := "c_out" |} |} in
  let d := {| TestBench.reg_N := -1; TestBench.reg_a := 0; TestBench.reg_b := 0;
              TestBench.reg_c_in := 0 |} in
  @TestBench.test_adder_basic Sequence.lcg TestBench.ideal_adder CONFIG 0
    (@TestBench.start Sequence.lcg TestBench.ideal_adder 42 d)
  = (Raise ValueError,
     @TestBench.Build_state Sequence.lcg TestBench.ideal_adder 42 d []
       (Coverage.set_obj 0 {| Coverage.covered := ∅ |} Coverage.empty_world)).
Proof.
  refine (test_adder_basic_negative_width Sequence.lcg TestBench.ideal_adder
            _ 0 (@TestBench.start Sequence.lcg TestBench.ideal_adder 42 _) _).
  cbn. lia.
Defined.

(** On a circuit that adds correctly, with a width [N >= 0] and a random
    source that keeps [random.randint]'s contract, the test passes: it drives
    exactly one in-range vector, the tracker ends holding that vector alone,
    and the one line printed reports the count 1. *)
Theorem test_adder_basic_passes_on_adder (R : Sequence.RandomGen)
    (D : TestBench.Dut) (CONFIG : Config.config) (cov : nat)
    (st : TestBench.state R D) :
  Sequence.draw_in_range R ->
  TestBench.adds_correctly (Config.ports CONFIG) ->
  0 <= TestBench.N_value (TestBench.st_dut st) ->
  exists a b c_in st',
    TestBench.test_adder_basic CONFIG cov st = (Ok tt, st')
    /\ Sequence.vector_in_range (TestBench.N_value (TestBench.st_dut st)) (a, b, c_in)
    /\ Coverage.covered_of (TestBench.st_world st') cov
       = {[ Coverage.tuple3 a b c_in ]}
    /\ Coverage.stdout (TestBench.st_world st')
       = Coverage.stdout (TestBench.st_world st)
         ++ ["[Coverage] Total unique input combinations: 1"].
Proof.
  intros HR Hadd HN.
  destruct (test_adder_basic_run CONFIG cov st HN) as (a & b & c_in & g & Hgv & ->).
  destruct (generate_vectors_spec R HR _ None (TestBench.st_rng st) HN)
    as (vs & g' & Hgv' & _ & Hall).
  rewrite Hgv in Hgv'.
  assert (vs = [(a, b, c_in)]) as -> by congruence. clear Hgv' g'.
  exists a, b, c_in.
  set (st0 := {| TestBench.st_rng := g |}).
  destruct (run_vectors_adder_ok (Config.ports CONFIG)
              (TestBench.N_value (TestBench.st_dut st)) cov [(a, b, c_in)]
              Hadd HN Hall st0 eq_refl)
    as (st' & Hrun & Hcov & Hout & _ & _).
  rewrite <- Z.shiftl_1_l.
  unfold mbind, M_mbind, M_bind. rewrite Hrun.
  unfold TestBench.with_world. rewrite report_eq.
  eexists. split; [reflexivity|]. cbn [TestBench.st_world Coverage.stdout].
  subst st0. cbn [TestBench.st_world] in Hcov, Hout.
  rewrite covered_of_set_obj_same in Hcov. cbn [Coverage.covered map] in Hcov.
  rewrite list_to_set_singleton_L, (left_id_L ∅ (∪)) in Hcov.
  split; [now inversion Hall|]. split.
  - unfold Coverage.covered_of in *. exact Hcov.
  - rewrite Hout, Hcov, size_singleton. reflexivity.
Qed.

Lemma test_adder_basic_passes_on_adder_witness :
  let CONFIG := {| Config.name := "cla"; Config.top_module := "cla";
                   Config.rtl_files := ["rtl/cla4.v"; "rtl/cla.v"];
                   Config.parameter_N := 4;
                   Config.ports :=
                     {| Config.port_a := "a"; Config.port_b := "b";
                        Config.port_c_in := "c_in"; Config.port_sum := "sum";
                        Config.port_c_out := "c_out" |} |} in
  let st := @TestBench.start Sequence.lcg TestBench.ideal_adder 42
              {| TestBench.reg_N := 4; TestBench.reg_a := 0; TestBench.reg_b := 0;
                 TestBench.reg_c_in := 0 |} in
  exists a b c_in st',
    @TestBench.test_adder_basic Sequence.lcg TestBench.ideal_adder CONFIG 0 st
    = (Ok tt, st')
    /\ Sequence.vector_in_range 4 (a, b, c_in)
    /\ Coverage.covered_of (TestBench.st_world st') 0 = {[ Coverage.tuple3 a b c_in ]}
    /\ Coverage.stdout (TestBench.st_world st')
       = [] ++ ["[Coverage] Total unique input combinations: 1"].
Proof.
  refine (test_adder_basic_passes_on_adder Sequence.lcg TestBench.ideal_adder
            _ 0 (@TestBench.start Sequence.lcg TestBench.ideal_adder 42 _) _ _ _).
  - exact lcg_in_range.
  - exact ideal_adder_adds.
  - cbn. lia.
Defined.

Section TestVerdict.
Import Sequence Asserts TestBench.
Context {R : RandomGen} {D : Dut}.

(** The test on its single vector, by cases on the two comparisons. *)
Lemma test_adder_basic_cases (CONFIG : Config.config) (cov : nat) (st : state R D) :
  0 <= N_value (st_dut st) ->
  exists a b c_in g,
    generate_vectors (Sequence.init (N_value (st_dut st))) None (st_rng st)
    = (Ok [(a, b, c_in)], g)
    /\ let N := N_value (st_dut st) in
       let ports := Config.ports CONFIG in
       let d' := timer_1ns (write (Config.port_c_in ports) c_in
                   (write (Config.port_b ports) b
                      (write (Config.port_a ports) a (st_dut st)))) in
       let passes :=
         (sum_value (handle d') =? (a + b + c_in) mod 2 ^ N)
         && (c_out_value (handle d') =? (a + b + c_in) / 2 ^ N) in
       (passes = true ->
          fst (test_adder_basic CONFIG cov st) = Ok tt
          /\ Coverage.stdout (st_world (snd (test_adder_basic CONFIG cov st)))
             = Coverage.stdout (st_world st)
               ++ ["[Coverage] Total unique input combinations: 1"])
       /\ (passes = false ->
          (exists msg, fst (test_adder_basic CONFIG cov st)
                       = Raise (AssertionError msg))
          /\ Coverage.stdout (st_world (snd (test_adder_basic CONFIG cov st)))
             = Coverage.stdout (st_world st)).
Proof.
  intros HN.
  destruct (test_adder_basic_run CONFIG cov st HN) as (a & b & c_in & g & Hgv & ->).
  exists a, b, c_in, g. split; [exact Hgv|]. cbn zeta.
  unfold mbind, M_mbind, M_bind.
  rewrite run_vectors_cons by exact HN. cbn zeta.
  cbn [st_rng st_dut st_log st_world].
  replace (2 ^ N_value (st_dut st) - 1)
    with (Z.shiftl 1 (N_value (st_dut st)) - 1) by (now rewrite Z.shiftl_1_l).
  rewrite land_mask_mod, Z.shiftr_div_pow2 by exact HN.
  rewrite assert_adder_sum_run, assert_adder_c_out_run. cbn [fst].
  destruct (sum_value _ =? _); [destruct (c_out_value _ =? _)|]; cbn [andb].
  - split; [intros _|discriminate].
    cbn [run_vectors]. unfold mret, M_ret, with_world. rewrite report_eq.
    cbn [fst snd st_world Coverage.stdout]. split; [reflexivity|].
    rewrite sample_run. cbn [snd]. rewrite !covered_of_set_obj_same.
    cbn [Coverage.covered Coverage.stdout Coverage.set_obj].
    rewrite (left_id_L ∅ (∪)), size_singleton. reflexivity.
  - split; [discriminate|intros _]. cbn. eauto.
  - split; [discriminate|intros _]. cbn. eauto.
Qed.

End TestVerdict.

(** The verdict of the test is the comparison on the one vector it draws:
    for a width [N >= 0], any circuit and any random source, the test passes
    exactly when, one nanosecond after that vector was driven, the circuit's
    sum equals [(a + b + c_in) mod 2^N] and its carry equals
    [(a + b + c_in) div 2^N]. *)
Theorem test_adder_basic_verdict (R : Sequence.RandomGen) (D : TestBench.Dut)
    (CONFIG : Config.config) (cov : nat) (st : TestBench.state R D) :
  0 <= TestBench.N_value (TestBench.st_dut st) ->
  exists a b c_in g,
    Sequence.generate_vectors
      (Sequence.init (TestBench.N_value (TestBench.st_dut st))) None
      (TestBench.st_rng st)
    = (Ok [(a, b, c_in)], g)
    /\ let N := TestBench.N_value (TestBench.st_dut st) in
       let ports := Config.ports CONFIG in
       let d' := TestBench.timer_1ns
                   (TestBench.write (Config.port_c_in ports) c_in
                      (TestBench.write (Config.port_b ports) b
                         (TestBench.write (Config.port_a ports) a
                            (TestBench.st_dut st)))) in
       (fst (TestBench.test_adder_basic CONFIG cov st) = Ok tt
        <-> Asserts.sum_value (TestBench.handle d') = (a + b + c_in) mod 2 ^ N
            /\ Asserts.c_out_value (TestBench.handle d') = (a + b + c_in) / 2 ^ N).
Proof.
  intros HN.
  destruct (test_adder_basic_cases CONFIG cov st HN)
    as (a & b & c_in & g & Hgv & Hyes & Hno).
  exists a, b, c_in, g. split; [exact Hgv|]. cbn zeta in *.
  destruct (Z.eqb_spec
              (Asserts.sum_value (TestBench.handle (TestBench.timer_1ns
                 (TestBench.write (Config.port_c_in (Config.ports CONFIG)) c_in
                    (TestBench.write (Config.port_b (Config.ports CONFIG)) b
                       (TestBench.write (Config.port_a (Config.ports CONFIG)) a
                          (TestBench.st_dut st)))))))
              ((a + b + c_in) mod 2 ^ TestBench.N_value (TestBench.st_dut st)))
    as [Hs|Hs];
  [destruct (Z.eqb_spec
              (Asserts.c_out_value (TestBench.handle (TestBench.timer_1ns
                 (TestBench.write (Config.port_c_in (Config.ports CONFIG)) c_in
                    (TestBench.write (Config.port_b (Config.ports CONFIG)) b
                       (TestBench.write (Config.port_a (Config.ports CONFIG)) a
                          (TestBench.st_dut st)))))))
              ((a + b + c_in) / 2 ^ TestBench.N_value (TestBench.st_dut st)))
    as [Hc|Hc]|]; cbn [andb] in *.
  - split; [tauto|]. intros _. now apply Hyes.
  - destruct (Hno eq_refl) as [[msg Hmsg] _]. rewrite Hmsg.
    split; [discriminate|tauto].
  - destruct (Hno eq_refl) as [[msg Hmsg] _]. rewrite Hmsg.
    split; [discriminate|tauto].
Qed.

Lemma test_adder_basic_verdict_witness :
  let CONFIG := {| Config.name := "cla"; Config.top_module := "cla";
                   Config.rtl_files := ["rtl/cla4.v"; "rtl/cla.v"];
                   Config.parameter_N := 4;
                   Config.ports :=
                     {| Config.port_a := "a"; Config.port_b := "b";
                        Config.port_c_in := "c_in"; Config.port_sum := "sum";
                        Config.port_c_out := "c_out" |} |} in
  let st := @TestBench.start Sequence.lcg TestBench.stuck_adder 42
              {| TestBench.reg_N := 4; TestBench.reg_a := 0; TestBench.reg_b := 0;
                 TestBench.reg_c_in := 0 |} in
  exists a b c_in g,
    @Sequence.generate_vectors Sequence.lcg (Sequence.init 4) None 42
    = (Ok [(a, b, c_in)], g)
    /\ (fst (@TestBench.test_adder_basic Sequence.lcg TestBench.stuck_adder CONFIG 0 st)
        = Ok tt
        <-> 0 = (a + b + c_in) mod 2 ^ 4
            /\ (a + b + c_in) / 2 ^ 4 = (a + b + c_in) / 2 ^ 4).
Proof.
  intros CONFIG st.
  refine (test_adder_basic_verdict Sequence.lcg TestBench.stuck_adder
            CONFIG 0 st _).
  cbn. lia.
Defined.

(** The coverage line is printed exactly when the test passes, and then it
    always reports the count 1; when the test fails, on a comparison or on a
    negative width, nothing at all is printed.  This holds for any circuit
    and any random source. *)
Theorem test_adder_basic_report (R : Sequence.RandomGen) (D : TestBench.Dut)
    (CONFIG : Config.config) (cov : nat) (st : TestBench.state R D) :
  let run := TestBench.test_adder_basic CONFIG cov st in
  (fst run = Ok tt
   /\ Coverage.stdout (TestBench.st_world (snd run))
      = Coverage.stdout (TestBench.st_world st)
        ++ ["[Coverage] Total unique input combinations: 1"])
  \/ ((exists e, fst run = Raise e)
      /\ Coverage.stdout (TestBench.st_world (snd run))
         = Coverage.stdout (TestBench.st_world st)).
Proof.
  cbn zeta.
  destruct (Z.lt_ge_cases (TestBench.N_value (TestBench.st_dut st)) 0) as [HN|HN].
  - right. rewrite test_negative_width_run by exact HN.
    split; [eexists; reflexivity|reflexivity].
  - destruct (test_adder_basic_cases CONFIG cov st HN)
      as (a & b & c_in & g & _ & Hyes & Hno). cbn zeta in *.
    destruct (_ && _).
    + left. now apply Hyes.
    + right. destruct (Hno eq_refl) as [[msg Hmsg] Hout].
      split; [now exists (AssertionError msg)|exact Hout].
Qed.

(** ** The input space as an invariant of the tracker *)

Lemma size_list_to_set_le (l : list (list Coverage.atom)) :
  (size (list_to_set l : gset (list Coverage.atom)) <= length l)%nat.
Proof.
  induction l as [|x l IH]; [now rewrite list_to_set_nil, size_empty|].
  rewrite list_to_set_cons, size_union_alt, size_singleton. cbn [length].
  assert (size ((list_to_set l : gset (list Coverage.atom)) ∖ {[x]})
          <= size (list_to_set l : gset (list Coverage.atom)))%nat
    by (apply subseteq_size; set_solver).
  lia.
Qed.

Lemma length_bind_const {A B : Type} (f : A -> list B) (k : nat) (l : list A) :
  (forall x, length (f x) = k) -> length (l ≫= f) = (length l * k)%nat.
Proof.
  intros Hf. induction l as [|x l IH]; [reflexivity|].
  rewrite bind_cons, length_app, Hf, IH. reflexivity.
Qed.

Lemma length_all_vectors (N : Z) :
  0 <= N -> Z.of_nat (length (Space.all_vectors N)) = 2 ^ (2 * N + 1).
Proof.
  intros HN. unfold Space.all_vectors.
  assert (0 < 2 ^ N) as Hpow by (apply Z.pow_pos_nonneg; lia).
  rewrite (length_bind_const _ (Z.to_nat (2 ^ N) * 2)%nat).
  - rewrite length_seqZ.
    rewrite Z.pow_add_r, Z.pow_mul_r, Z.pow_2_r by lia.
    replace ((2 * 2) ^ N) with (2 ^ N * 2 ^ N)
      by (rewrite <- Z.pow_mul_l; reflexivity).
    lia.
  - intros a. rewrite (length_bind_const _ 2%nat).
    + now rewrite length_seqZ.
    + intros b. reflexivity.
Qed.

Lemma within_space_all_vectors (N : Z) (s : gset (list Coverage.atom)) :
  Space.within_space N s -> s ⊆ list_to_set (Space.all_vectors N).
Proof.
  intros Hs t Ht. destruct (Hs t Ht) as (a & b & c & -> & Ha & Hb & Hc).
  apply elem_of_list_to_set. unfold Space.all_vectors.
  apply list_elem_of_bind. exists a. split; [|apply elem_of_seqZ; lia].
  apply list_elem_of_bind. exists b. split; [|apply elem_of_seqZ; lia].
  apply list_elem_of_bind. exists c. split; [apply list_elem_of_singleton; reflexivity|].
  destruct Hc as [-> | ->]; set_solver.
Qed.

(** A tracker fed from the input space of width [N] stays within it, and so
    never counts more than [2^(2N+1)] combinations: the empty set [__init__]
    leaves is within the space, [sample] of an in-range vector and [merge]
    with a tracker that is within the space keep it so, and a covered set
    within the space has at most [2^(2N+1)] elements. *)
Theorem coverage_within_space (N : Z) (w : Coverage.world) (self : nat) :
  0 <= N ->
  Space.within_space N (Coverage.covered_of (snd (Coverage.init self w)) self)
  /\ (forall a b c_in,
        Space.within_space N (Coverage.covered_of w self) ->
        Sequence.vector_in_range N (a, b, c_in) ->
        Space.within_space N
          (Coverage.covered_of (snd (Coverage.sample self a b c_in w)) self))
  /\ (forall other,
        Space.within_space N (Coverage.covered_of w self) ->
        Space.within_space N (Coverage.covered_of w other) ->
        Space.within_space N
          (Coverage.covered_of (snd (Coverage.merge self other w)) self))
  /\ (Space.within_space N (Coverage.covered_of w self) ->
      Z.of_nat (size (Coverage.covered_of w self)) <= 2 ^ (2 * N + 1)).
Proof.
  intros HN. split; [|split; [|split]].
  - rewrite init_run. cbn [snd]. rewrite covered_of_set_obj_same. cbn.
    intros t Ht. set_solver.
  - intros a b c_in Hs Hv. rewrite sample_run. cbn [snd].
    rewrite covered_of_set_obj_same. cbn [Coverage.covered].
    intros t Ht. apply elem_of_union in Ht as [Ht|Ht]; [now apply Hs|].
    apply elem_of_singleton in Ht as ->. eauto.
  - intros other Hs Ho. rewrite merge_run. cbn [snd].
    rewrite covered_of_set_obj_same. cbn [Coverage.covered].
    intros t Ht. apply elem_of_union in Ht as [Ht|Ht]; [now apply Hs|now apply Ho].
  - intros Hs. rewrite <- length_all_vectors by exact HN.
    apply Nat2Z.inj_le.
    etransitivity; [apply subseteq_size, within_space_all_vectors, Hs|].
    apply size_list_to_set_le.
Qed.

Lemma coverage_within_space_witness :
  let w := snd ((_ ← Coverage.sample 0 1 0 1; Coverage.sample 0 1 1 0)
                  Coverage.empty_world) in
  Z.of_nat (size (Coverage.covered_of w 0)) <= 2 ^ (2 * 1 + 1).
Proof.
  intros w.
  refine (proj2 (proj2 (proj2 (coverage_within_space 1 w 0 _))) _).
  - lia.
  - intros t Ht.
    assert (Coverage.covered_of w 0
            = ∅ ∪ {[Coverage.tuple3 1 0 1]} ∪ {[Coverage.tuple3 1 1 0]})
      as Hw by reflexivity.
    rewrite Hw in Ht.
    apply elem_of_union in Ht as [Ht|Ht];
      [apply elem_of_union in Ht as [Ht|Ht]|].
    { now apply not_elem_of_empty in Ht. }
    all: apply elem_of_singleton in Ht as ->.
    + exists 1, 0, 1. split; [reflexivity|]. cbn. lia.
    + exists 1, 1, 0. split; [reflexivity|]. cbn. lia.
Defined.

(** ** The plot file names *)

Section PlotNames.
Import PlotMetrics.

Lemma in_app_string (c : ascii) (s t : string) :
  In c (list_ascii_of_string (s +:+ t))
  <-> In c (list_ascii_of_string s) \/ In c (list_ascii_of_string t).
Proof.
  induction s as [|d s IH].
  - change ("" +:+ t) with t. cbn. tauto.
  - change (String d s +:+ t) with (String d (s +:+ t)).
    cbn [list_ascii_of_string In]. rewrite IH. tauto.
Qed.

Lemma length_app_string (s t : string) :
  String.length (s +:+ t) = (String.length s + String.length t)%nat.
Proof.
  induction s as [|d s IH]; [reflexivity|].
  change (String d s +:+ t) with (String d (s +:+ t)).
  cbn [String.length]. now rewrite IH.
Qed.

(** What a replacement leaves: the characters of the replacement text and
    the characters of the original other than the one replaced. *)
Lemma in_replace_char (old : ascii) (new s : string) (c : ascii) :
  In c (list_ascii_of_string (replace_char old new s))
  <-> (In c (list_ascii_of_string new) /\ In old (list_ascii_of_string s))
      \/ (c <> old /\ In c (list_ascii_of_string s)).
Proof.
  induction s as [|d s IH]; cbn [replace_char list_ascii_of_string In]; [tauto|].
  destruct (Ascii.eqb_spec d old) as [->|Hne].
  - rewrite in_app_string, IH. naive_solver.
  - cbn [list_ascii_of_string In]. rewrite IH. naive_solver.
Qed.

Lemma length_replace_char_le (old : ascii) (new s : string) :
  (String.length new <= 1 ->
   String.length (replace_char old new s) <= String.length s)%nat.
Proof.
  intros Hnew. induction s as [|d s IH]; cbn [replace_char String.length]; [lia|].
  destruct (Ascii.eqb d old); cbn [String.length]; [|lia].
  rewrite length_app_string. lia.
Qed.

End PlotNames.

(** The name under which a plot is saved contains no space and no
    parenthesis, whatever the metric is called, and is at most four
    characters longer than the metric; and the six metrics [main] plots are
    saved under six different names. *)
Theorem plot_filename_clean :
  (forall (metric : string) (c : ascii),
      In c (list_ascii_of_string (PlotMetrics.plot_filename metric)) ->
      c <> " "%char /\ c <> "("%char /\ c <> ")"%char)
  /\ (forall metric : string,
      String.length (PlotMetrics.plot_filename metric) <= String.length metric + 4)%nat
  /\ NoDup (map PlotMetrics.plot_filename PlotMetrics.metrics_to_plot).
Proof.
  split; [|split].
  - intros metric c. unfold PlotMetrics.plot_filename.
    rewrite in_app_string, !in_replace_char. cbn [list_ascii_of_string In].
    intros [[[[] _]|[H1 [[[] _]|[H2 [[[<-|[]] _]|[H3 _]]]]]]|Hpng].
    + repeat split; discriminate.
    + tauto.
    + repeat split; destruct Hpng as [<-|[<-|[<-|[<-|[]]]]]; discriminate.
  - intros metric. unfold PlotMetrics.plot_filename.
    rewrite length_app_string. cbn [String.length].
    pose proof (length_replace_char_le ")" ""
      (PlotMetrics.replace_char "(" "" (PlotMetrics.replace_char " " "_" metric))
      ltac:(cbn; lia)).
    pose proof (length_replace_char_le "(" ""
      (PlotMetrics.replace_char " " "_" metric) ltac:(cbn; lia)).
    pose proof (length_replace_char_le " " "_" metric ltac:(cbn; lia)).
    lia.
  - refine (bool_decide_unpack _ _). vm_compute. exact I.
Qed.
